(** * Tool-call orchestration of [src/app/api/call-events/route.ts]

    A shallow embedding of the call-events route: the tool dispatch router
    ([POST]), the two tool handlers ([handleCaptureScreenshot],
    [handleMarkStepComplete]), the in-memory waiting room
    ([pendingScreenshots]) with its timers, and the result submission
    endpoint ([PUT]).

    Conventions of the embedding.
    - A JavaScript string is a [string]: a sequence of code units, here
      restricted to the code units below 256.
    - A value of type [any] is a [JsVal]: undefined, null, a boolean, an
      integer number or a string.  Objects, arrays and non-integral numbers
      are outside the embedding.  The text of a number is embedded for the
      safe integers only ([safe_integer]): a statement that prints a number
      is made for those.
    - [async] functions are programs of type [Prog]: every [await] of the
      source is a constructor that holds the rest of the function as a
      continuation, so that other requests can run while one is suspended.
    - Effects on the process-wide state are functions on [World]; every
      effect is also appended to the world's [log]. *)

From Stdlib Require Import ZArith Lia List Ascii String.
From Stdlib.Strings Require Import Byte.
From stdpp Require Import base option gmap strings list fin_maps pretty.

Local Open Scope string_scope.
Local Open Scope list_scope.
Local Open Scope Z_scope.

(** ** JavaScript values *)

Module Js.

Inductive JsVal :=
| JUndefined
| JNull
| JBool (b : bool)
| JNum (z : Z)
| JStr (s : string).

#[global] Instance JsVal_eq_dec : EqDecision JsVal.
Proof. solve_decision. Defined.

(** ToBoolean, as used by [!x], [x || y] and [if (x)]. *)
Definition truthy (v : JsVal) : bool :=
  match v with
  | JUndefined | JNull => false
  | JBool b => b
  | JNum z => negb (Z.eqb z 0)
  | JStr s => negb (String.eqb s "")
  end.

(** [a || b] *)
Definition or (a b : JsVal) : JsVal := if truthy a then a else b.

(** [Number.MAX_SAFE_INTEGER], 2^53 - 1. *)
Definition MAX_SAFE_INTEGER : Z := 9007199254740991.

(** [Number.isSafeInteger(z)] for an integer [z]. *)
Definition safe_integer (z : Z) : bool :=
  (- MAX_SAFE_INTEGER <=? z)%Z && (z <=? MAX_SAFE_INTEGER)%Z.

(** The values whose text [ToString] gives: every value but a number that
    is not a safe integer. *)
Definition printable (v : JsVal) : bool :=
  match v with
  | JNum z => safe_integer z
  | _ => true
  end.

(** ToString, as applied by a template literal [`${v}`] and by
    [String(v)].  A number is written as its decimal numeral, which is its
    text when it is a safe integer; a larger number is printed otherwise by
    JavaScript (its shortest digits that read back as the same number,
    filled with zeros, and from 10^21 on with an exponent, as in [1e+21]),
    and that text is not embedded: [ToString v] is the text of [v] for the
    [printable] values. *)
Definition ToString (v : JsVal) : string :=
  match v with
  | JUndefined => "undefined"
  | JNull => "null"
  | JBool true => "true"
  | JBool false => "false"
  | JNum z => pretty z
  | JStr s => s
  end.

(** The result of [Number(v)].  The numeric value of a string is left
    symbolic ([NumOfString]). *)
Inductive JsNumber :=
| NaN
| Int (z : Z)
| NumOfString (s : string).

Definition Number (v : JsVal) : JsNumber :=
  match v with
  | JUndefined => NaN
  | JNull => Int 0
  | JBool true => Int 1
  | JBool false => Int 0
  | JNum z => Int z
  | JStr s => NumOfString s
  end.

(** A value of [process.env]: absent or a string. *)
Definition env_truthy (v : option string) : bool :=
  match v with
  | Some s => negb (String.eqb s "")
  | None => false
  end.

(** [s.startsWith(p)] *)
Fixpoint startsWith (p s : string) : bool :=
  match p, s with
  | EmptyString, _ => true
  | String a p', String b s' => if Ascii.eqb a b then startsWith p' s' else false
  | String _ _, EmptyString => false
  end.

(** The rest of [s] after the prefix [p], when [s] starts with [p]. *)
Fixpoint strip_prefix (p s : string) : option string :=
  match p, s with
  | EmptyString, _ => Some s
  | String a p', String b s' => if Ascii.eqb a b then strip_prefix p' s' else None
  | String _ _, EmptyString => None
  end.

(** [s.replace(/^p/, r)] for a literal [p]. *)
Definition replace_prefix (p r s : string) : string :=
  match strip_prefix p s with
  | Some rest => r +:+ rest
  | None => s
  end.

(** Failure of a computation: [throw new Error(msg)]. *)
Inductive Outcome (A : Type) :=
| Return (a : A)
| Throw (msg : string).
Arguments Return {A} a.
Arguments Throw {A} msg.

End Js.
Import Js.

(** ** Base64, as [Buffer] implements it

    [Buffer.from(s, 'base64')] and [buf.toString('base64')] are the
    platform's; they are embedded by their documented behaviour: the encoder
    is the padded standard alphabet, the decoder accepts the standard and the
    URL-safe alphabet, skips every other character and stops at the first
    ['=']. *)

Module Base64.

Local Open Scope N_scope.

Definition Buffer := list byte.

Definition b64_char (n : N) : ascii :=
  if n <? 26 then ascii_of_N (65 + n)
  else if n <? 52 then ascii_of_N (97 + (n - 26))
  else if n <? 62 then ascii_of_N (48 + (n - 52))
  else if n =? 62 then "+"%char
  else "/"%char.

Definition b64_value (c : ascii) : option N :=
  let k := N_of_ascii c in
  if (65 <=? k) && (k <=? 90) then Some (k - 65)
  else if (97 <=? k) && (k <=? 122) then Some (k - 97 + 26)
  else if (48 <=? k) && (k <=? 57) then Some (k - 48 + 52)
  else if (k =? 43) || (k =? 45) then Some 62
  else if (k =? 47) || (k =? 95) then Some 63
  else None.

Definition pad : ascii := "="%char.

(** [buf.toString('base64')] *)
Fixpoint toString (buf : Buffer) : string :=
  match buf with
  | [] => EmptyString
  | [x] =>
      let a := Byte.to_N x in
      String (b64_char (a / 4))
        (String (b64_char ((a mod 4) * 16))
           (String pad (String pad EmptyString)))
  | [x; y] =>
      let a := Byte.to_N x in
      let b := Byte.to_N y in
      String (b64_char (a / 4))
        (String (b64_char ((a mod 4) * 16 + b / 16))
           (String (b64_char ((b mod 16) * 4))
              (String pad EmptyString)))
  | x :: y :: z :: rest =>
      let a := Byte.to_N x in
      let b := Byte.to_N y in
      let c := Byte.to_N z in
      String (b64_char (a / 4))
        (String (b64_char ((a mod 4) * 16 + b / 16))
           (String (b64_char ((b mod 16) * 4 + c / 64))
              (String (b64_char (c mod 64)) (toString rest))))
  end.

(** The six-bit values of the legal characters before the first ['=']. *)
Fixpoint sextets (s : string) : list N :=
  match s with
  | EmptyString => []
  | String c rest =>
      if Ascii.eqb c pad then []
      else match b64_value c with
           | Some v => v :: sextets rest
           | None => sextets rest
           end
  end.

Definition to_byte (n : N) : byte :=
  match Byte.of_N (n mod 256) with
  | Some b => b
  | None => x00
  end.

Fixpoint bytes_of_sextets (l : list N) : Buffer :=
  match l with
  | a :: b :: c :: d :: rest =>
      to_byte (a * 4 + b / 16)
        :: to_byte ((b mod 16) * 16 + c / 4)
        :: to_byte ((c mod 4) * 64 + d)
        :: bytes_of_sextets rest
  | [a; b; c] =>
      [to_byte (a * 4 + b / 16); to_byte ((b mod 16) * 16 + c / 4)]
  | [a; b] => [to_byte (a * 4 + b / 16)]
  | _ => []
  end.

(** [Buffer.from(s, 'base64')] *)
Definition from (s : string) : Buffer := bytes_of_sextets (sextets s).

(** The characters [\s] matches, among the code units below 256. *)
Definition is_space (c : ascii) : bool :=
  let k := N_of_ascii c in
  ((9 <=? k) && (k <=? 13)) || (k =? 32) || (k =? 160).

(** [s.replace(/\s/g, '')] *)
Fixpoint strip_whitespace (s : string) : string :=
  match s with
  | EmptyString => EmptyString
  | String c rest =>
      if is_space c then strip_whitespace rest
      else String c (strip_whitespace rest)
  end.

(** The six-bit values. *)
Definition below_64 : list N := List.map N.of_nat (seq 0 64).

(** A character that is neither white space nor a colon. *)
Definition plain (c : ascii) : bool :=
  negb (is_space c) && negb (Ascii.eqb c ":").

Fixpoint all_plain (s : string) : bool :=
  match s with
  | EmptyString => true
  | String c rest => plain c && all_plain rest
  end.

End Base64.

(** ** Data model (route.ts, lines 7-45) *)

(** The keys of [toolCall.parameters] that the handlers read; a key that is
    not present is [JUndefined]. *)
Record Parameters := {
  p_roomName : JsVal;
  p_targetIdentity : JsVal;
  p_question : JsVal;
  p_timeoutMs : JsVal;
  p_stepId : JsVal;
}.

Record ToolCall := {
  tc_name : JsVal;
  tc_id : JsVal;
  tc_parameters : Parameters;
}.

Record User := { user_id : JsVal }.

Record Call := {
  call_id : JsVal;
  call_user : option User;
}.

Record CallMessage := {
  msg_type : JsVal;
  msg_call : option Call;
  msg_tool_call : option ToolCall;
}.

(** [process.env] *)
Record Env := {
  LIVEKIT_API_KEY : option string;
  LIVEKIT_API_SECRET : option string;
  LIVEKIT_URL : option string;
  NEXT_PUBLIC_LIVEKIT_URL : option string;
  OPENAI_API_KEY : option string;
}.

(** The object a waiter is resolved with (line 87). *)
Record ScreenshotData := {
  imageBase64 : JsVal;
  sd_question : JsVal;
  legacyAnswer : JsVal;
}.

Inductive Settlement :=
| Resolved (v : ScreenshotData)
| Rejected (msg : string).

(** The object that is serialised into the data-channel message
    (lines 75-79 and 211-215). *)
Inductive Command :=
| capture_screenshot (question : JsVal) (requestId : string)
| mark_step_complete (stepId : JsNumber) (requestId : string).

(** One call of [roomService.sendData] on a client built for [sd_host]. *)
Record SendData := {
  sd_host : string;
  sd_room : JsVal;
  sd_data : Command;
  sd_kind : Z;
  sd_destinationIdentities : list JsVal;
}.

(** The request to the inference endpoint (lines 143-163). *)
Record FetchRequest := {
  fr_bearer : string;
  fr_text : JsVal;
  fr_image_url : string;
}.

Record ContentItem := { ci_type : JsVal; ci_text : JsVal }.
Record OutputItem := { oi_type : JsVal; oi_content : option (list ContentItem) }.

Record FetchResponse := {
  res_ok : bool;
  res_text : string;
  res_output : option (list OutputItem);
}.

(** An entry of [pendingScreenshots]: the [resolve]/[reject] pair of one
    promise, named by the promise's handle, and the timer's handle. *)
Record Waiter := {
  settle : nat;
  timer : nat;
}.

(** A scheduled timer: when it may run ([None]: the delay was the numeric
    value of a string), and what its callback captured. *)
Record Timer := {
  due : option Z;
  request : string;
  promise : nat;
}.

Inductive Effect :=
| SentData (s : SendData)
| SetTimeout (tid : nat) (delay : option Z)
| MapSet (requestId : string) (p : nat)
| MapDelete (requestId : string)
| ClearTimeout (tid : nat)
| Resolve (requestId : string) (p : nat) (v : ScreenshotData)
| Reject (requestId : string) (p : nat) (msg : string)
| Fetched (r : FetchRequest).

(** The state of the process: the waiting room, the scheduled timers, the
    clock in milliseconds, the next free handle and the effects so far,
    newest first. *)
Record World := {
  pendingScreenshots : gmap string Waiter;
  timers : gmap nat Timer;
  now : Z;
  next_handle : nat;
  log : list Effect;
}.

Definition initial : World :=
  {| pendingScreenshots := ∅; timers := ∅; now := 0; next_handle := 0%nat; log := [] |}.

(** The body of a [NextResponse.json] call. *)
Inductive Body :=
| BError (error : string)
| BErrorDetails (error details : string)
| BToolError (error : string) (tool_name tool_id : JsVal)
| BToolSuccess (tool_name tool_id result : JsVal)
| BEvent (message : string)
| BOk
| BStepAck (stepCompleted success : JsVal).

Record Response := {
  status : Z;
  body : Body;
}.

Definition json (b : Body) : Response := {| status := 200; body := b |}.
Definition json_status (b : Body) (s : Z) : Response := {| status := s; body := b |}.

(** The fields [PUT] destructures from the request body (line 332). *)
Record PutBody := {
  b_requestId : JsVal;
  b_imageBase64 : JsVal;
  b_question : JsVal;
  b_answer : JsVal;
  b_stepCompleted : JsVal;
  b_success : JsVal;
}.

(** ** The waiting room and its timers (lines 45, 87-93, 344-358) *)

Definition log_effect (e : Effect) (w : World) : World :=
  {| pendingScreenshots := pendingScreenshots w;
     timers := timers w;
     now := now w;
     next_handle := next_handle w;
     log := e :: log w |}.

(** [setTimeout] coerces its delay to a number and replaces a delay that is
    not within 1 .. [TIMEOUT_MAX] by 1. *)
Definition TIMEOUT_MAX : Z := 2147483647.

Definition timer_delay (v : JsVal) : option Z :=
  match Number v with
  | Int z => Some (if (1 <=? z)%Z && (z <=? TIMEOUT_MAX)%Z then z else 1)
  | NaN => Some 1
  | NumOfString _ => None
  end.

(** The executor of the promise at lines 87-93: it schedules the timer, then
    stores the waiter.  The new promise and its timer get the next free
    handle, which is returned. *)
Definition register (requestId : string) (timeoutMs : JsVal) (w : World) : nat * World :=
  let h := next_handle w in
  let delay := timer_delay timeoutMs in
  (h,
   {| pendingScreenshots :=
        <[requestId := {| settle := h; timer := h |}]> (pendingScreenshots w);
      timers :=
        <[h := {| due := (fun d => now w + d) <$> delay;
                  request := requestId;
                  promise := h |}]> (timers w);
      now := now w;
      next_handle := S h;
      log := MapSet requestId h :: SetTimeout h delay :: log w |}).

Definition timer_due (tm : Timer) (t : Z) : bool :=
  match due tm with
  | Some d => (d <=? t)%Z
  | None => true
  end.

(** The timer callback of lines 88-91, run by the event loop for the
    scheduled timer [tid] once it is due. *)
Definition fire (tid : nat) (w : World) : World :=
  match timers w !! tid with
  | Some tm =>
      if timer_due tm (now w) then
        {| pendingScreenshots := delete (request tm) (pendingScreenshots w);
           timers := delete tid (timers w);
           now := now w;
           next_handle := next_handle w;
           log := Reject (request tm) (promise tm) "capture_screenshot timed out"
                    :: MapDelete (request tm) :: log w |}
      else w
  | None => w
  end.

(** [pendingScreenshots.get(requestId)]: only strings are ever stored as
    keys. *)
Definition waiting_room_get (requestId : JsVal) (w : World) : option (string * Waiter) :=
  match requestId with
  | JStr s => (fun wt => (s, wt)) <$> pendingScreenshots w !! s
  | _ => None
  end.

(** The object the waiter is resolved with (lines 354-358). *)
Definition submitted (b : PutBody) : ScreenshotData :=
  if truthy (b_imageBase64 b) then
    {| imageBase64 := b_imageBase64 b;
       sd_question := b_question b;
       legacyAnswer := JUndefined |}
  else
    {| imageBase64 := JStr "";
       sd_question := b_question b;
       legacyAnswer := or (b_answer b) (JStr "") |}.

(** Lines 344-358: look the waiter up, remove it, stop its timer, resolve
    it.  The result says whether a waiter was found. *)
Definition deliver (requestId : JsVal) (payload : ScreenshotData) (w : World) : bool * World :=
  match waiting_room_get requestId w with
  | None => (false, w)
  | Some (rid, waiter) =>
      (true,
       {| pendingScreenshots := delete rid (pendingScreenshots w);
          timers := delete (timer waiter) (timers w);
          now := now w;
          next_handle := next_handle w;
          log := Resolve rid (settle waiter) payload
                   :: ClearTimeout (timer waiter)
                   :: MapDelete rid :: log w |})
  end.

(** [PUT] (lines 329-366).  [req] is the outcome of [await req.json()]; a
    body that is [null] has every field undefined. *)
Definition PUT (req : Outcome PutBody) (w : World) : Response * World :=
  match req with
  | Throw msg =>
      (json_status (BError (ToString (or (JStr msg) (JStr "failed to submit result")))) 500, w)
  | Return b =>
      if negb (truthy (b_requestId b)) then
        (json_status (BError "requestId required") 400, w)
      else if negb (bool_decide (b_stepCompleted b = JUndefined)) then
        (json (BStepAck (b_stepCompleted b) (b_success b)), w)
      else
        match deliver (b_requestId b) (submitted b) w with
        | (false, w') => (json_status (BError "No pending request") 404, w')
        | (true, w') => (json BOk, w')
        end
  end.

(** Whether an effect is a call of the [resolve] or [reject] of promise [p]. *)
Definition settles (p : nat) (e : Effect) : bool :=
  match e with
  | Resolve _ q _ | Reject _ q _ => bool_decide (q = p)
  | _ => false
  end.

(** The value an [await] of promise [h] yields: its first settlement. *)
Fixpoint settlement (h : nat) (l : list Effect) : option Settlement :=
  match l with
  | [] => None
  | e :: older =>
      match settlement h older with
      | Some s => Some s
      | None =>
          match e with
          | Resolve _ p v => if decide (p = h) then Some (Resolved v) else None
          | Reject _ p msg => if decide (p = h) then Some (Rejected msg) else None
          | _ => None
          end
      end
  end.

(** ** Events of the process, as far as the waiting room sees them *)

Inductive Event :=
| EvRegister (requestId : string) (timeoutMs : JsVal)
| EvPut (req : Outcome PutBody)
| EvTimer (tid : nat)
| EvTick (d : Z)
| EvEffect (e : SendData + FetchRequest).

Definition tick (d : Z) (w : World) : World :=
  {| pendingScreenshots := pendingScreenshots w;
     timers := timers w;
     now := now w + Z.max 0 d;
     next_handle := next_handle w;
     log := log w |}.

Definition step (w : World) (e : Event) : World :=
  match e with
  | EvRegister requestId timeoutMs => (register requestId timeoutMs w).2
  | EvPut req => (PUT req w).2
  | EvTimer tid => fire tid w
  | EvTick d => tick d w
  | EvEffect (inl s) => log_effect (SentData s) w
  | EvEffect (inr r) => log_effect (Fetched r) w
  end.

Definition run (evs : list Event) (w : World) : World := fold_left step evs w.

(** The request ids registered by a sequence of events, and by a log. *)
Definition registered_ids (evs : list Event) : list string :=
  omap (fun e => match e with EvRegister rid _ => Some rid | _ => None end) evs.

(** The settlements ([resolve] or [reject] calls) for a request id. *)
Definition settles_request (rid : string) (e : Effect) : bool :=
  match e with
  | Resolve r _ _ | Reject r _ _ => bool_decide (r = rid)
  | _ => false
  end.

Definition settle_count (rid : string) (l : list Effect) : nat :=
  length (filter (fun e => settles_request rid e = true) l).

(** ** Asynchronous programs

    Each constructor with a continuation is one [await] of the source; the
    continuation receives what the awaited promise settles to. *)

Inductive Prog (A : Type) :=
| Ret (a : A)
| Raise (msg : string)
| AwaitSendData (s : SendData) (k : Outcome unit -> Prog A)
| AwaitScreenshot (requestId : string) (timeoutMs : JsVal) (k : Settlement -> Prog A)
| AwaitFetch (r : FetchRequest) (k : Outcome FetchResponse -> Prog A).
Arguments Ret {A} a.
Arguments Raise {A} msg.
Arguments AwaitSendData {A} s k.
Arguments AwaitScreenshot {A} requestId timeoutMs k.
Arguments AwaitFetch {A} r k.

(** [await roomService.sendData(...)]; a rejection is rethrown. *)
Definition await_sendData {A} (s : SendData) (k : Prog A) : Prog A :=
  AwaitSendData s (fun r => match r with Return _ => k | Throw msg => Raise msg end).

(** [await new Promise(...)] of lines 87-93; a rejection is rethrown. *)
Definition await_screenshot {A} (requestId : string) (timeoutMs : JsVal)
    (k : ScreenshotData -> Prog A) : Prog A :=
  AwaitScreenshot requestId timeoutMs
    (fun s => match s with Resolved v => k v | Rejected msg => Raise msg end).

(** [await fetch(...)]; a network failure is rethrown. *)
Definition await_fetch {A} (r : FetchRequest) (k : FetchResponse -> Prog A) : Prog A :=
  AwaitFetch r (fun o => match o with Return res => k res | Throw msg => Raise msg end).

(** [try { r = await p; ... } catch (error) { ... }]: [f] receives the
    value or the error of [p]. *)
Fixpoint try_catch {A B} (p : Prog A) (f : Outcome A -> Prog B) : Prog B :=
  match p with
  | Ret a => f (Return a)
  | Raise msg => f (Throw msg)
  | AwaitSendData s k => AwaitSendData s (fun r => try_catch (k r) f)
  | AwaitScreenshot rid t k => AwaitScreenshot rid t (fun r => try_catch (k r) f)
  | AwaitFetch r k => AwaitFetch r (fun o => try_catch (k o) f)
  end.

(** A running request: finished, or suspended at an [await]. *)
Inductive Task (A : Type) :=
| Done (r : Outcome A)
| Sending (k : Outcome unit -> Prog A)
| Waiting (h : nat) (k : Settlement -> Prog A)
| Fetching (k : Outcome FetchResponse -> Prog A).
Arguments Done {A} r.
Arguments Sending {A} k.
Arguments Waiting {A} h k.
Arguments Fetching {A} k.

(** Run a program up to its next [await]. *)
Definition start {A} (p : Prog A) (w : World) : Task A * World :=
  match p with
  | Ret a => (Done (Return a), w)
  | Raise msg => (Done (Throw msg), w)
  | AwaitSendData s k => (Sending k, log_effect (SentData s) w)
  | AwaitScreenshot rid t k =>
      let '(h, w') := register rid t w in (Waiting h k, w')
  | AwaitFetch r k => (Fetching k, log_effect (Fetched r) w)
  end.

(** The transport's promise settles. *)
Definition sent {A} (r : Outcome unit) (t : Task A) (w : World) : Task A * World :=
  match t with
  | Sending k => start (k r) w
  | _ => (t, w)
  end.

(** The awaited promise has been settled: the task continues with its
    settlement. *)
Definition resume {A} (t : Task A) (w : World) : Task A * World :=
  match t with
  | Waiting h k =>
      match settlement h (log w) with
      | Some s => start (k s) w
      | None => (t, w)
      end
  | _ => (t, w)
  end.

(** The inference endpoint answers. *)
Definition fetched {A} (o : Outcome FetchResponse) (t : Task A) (w : World) : Task A * World :=
  match t with
  | Fetching k => start (k o) w
  | _ => (t, w)
  end.

(** ** The vision adapter (lines 95-180) *)

Definition is_line_terminator (c : ascii) : bool :=
  let k := N_of_ascii c in (k =? 10)%N || (k =? 13)%N.

Fixpoint no_line_terminator (s : string) : bool :=
  match s with
  | EmptyString => true
  | String c rest => negb (is_line_terminator c) && no_line_terminator rest
  end.

(** The longest prefix of [s] without [c], and the rest. *)
Fixpoint break_at (c : ascii) (s : string) : string * string :=
  match s with
  | EmptyString => (EmptyString, EmptyString)
  | String a rest =>
      if Ascii.eqb a c then (EmptyString, s)
      else let '(l, r) := break_at c rest in (String a l, r)
  end.

(** [s.match] with the pattern of line 118: the literal [data:], a non-empty
    run of characters other than [;] (group 1), the literal [;base64,], and
    the rest of the input, which the dot matches only without line
    terminators (group 2). *)
Definition match_data_url (s : string) : option (string * string) :=
  match strip_prefix "data:" s with
  | None => None
  | Some rest =>
      let '(mime, tail) := break_at ";" rest in
      if String.eqb mime "" then None
      else match strip_prefix ";base64," tail with
           | Some payload =>
               if no_line_terminator payload then Some (mime, payload) else None
           | None => None
           end
  end.

(** Lines 114-141: the clean data URL built from a submitted image. *)
Definition normalize (image : JsVal) : Outcome string :=
  match image with
  | JStr base64Payload =>
      let parsed :=
        if startsWith "data:" base64Payload then
          match match_data_url base64Payload with
          | None => Throw "Unsupported data URL format"
          | Some (m1, m2) =>
              Return (ToString (or (JStr m1) (JStr "image/jpeg")),
                      ToString (or (JStr m2) (JStr "")))
          end
        else Return ("image/jpeg", base64Payload) in
      match parsed with
      | Throw msg => Throw msg
      | Return (mimeType, base64Payload) =>
          let base64Payload := Base64.strip_whitespace base64Payload in
          let buf := Base64.from base64Payload in
          if (length buf =? 0)%nat then Throw "Invalid base64 payload for screenshot"
          else
            Return ("data:" +:+ mimeType +:+ ";base64," +:+ Base64.toString buf)
      end
  | _ => Throw "base64Payload.startsWith is not a function"
  end.

(** Lines 175-177: the text of the first [output_text] block of the first
    [message] item. *)
Definition extract_answer (res : FetchResponse) : JsVal :=
  let messageOutput : option OutputItem :=
    match res_output res with
    | Some output =>
        List.find (fun item => bool_decide (oi_type item = JStr "message")) output
    | None => None
    end in
  let textContent : option ContentItem :=
    match messageOutput with
    | Some {| oi_content := Some content |} =>
        List.find (fun item => bool_decide (ci_type item = JStr "output_text")) content
    | _ => None
    end in
  or (match textContent with Some item => ci_text item | None => JUndefined end)
     (JStr "No response text found").

(** Lines 95-180: what [handleCaptureScreenshot] does with the delivered
    result. *)
Definition answer (env : Env) (question : JsVal) (screenshotData : ScreenshotData) : Prog JsVal :=
  let effectiveQuestion :=
    or (or question (sd_question screenshotData)) (JStr "What do you see?") in
  if negb (truthy (imageBase64 screenshotData)) && truthy (legacyAnswer screenshotData) then
    Ret (legacyAnswer screenshotData)
  else if negb (env_truthy (OPENAI_API_KEY env)) then
    Ret (JStr ("Mock vision answer to: " +:+ ToString effectiveQuestion))
  else if negb (truthy (imageBase64 screenshotData)) then
    Raise "Missing imageBase64 in screenshot submission"
  else
    match normalize (imageBase64 screenshotData) with
    | Throw msg => Raise msg
    | Return dataUrl =>
        await_fetch
          {| fr_bearer := default "" (OPENAI_API_KEY env);
             fr_text := effectiveQuestion;
             fr_image_url := dataUrl |}
          (fun openaiRes =>
             if negb (res_ok openaiRes) then
               Raise ("Vision LLM error: " +:+ res_text openaiRes)
             else Ret (extract_answer openaiRes))
    end.

(** ** The tool handlers (lines 48-223) *)

(** [message.call?.id] and [message.call?.user?.id] *)
Definition call_context_id (message : CallMessage) : JsVal :=
  match msg_call message with
  | Some c => call_id c
  | None => JUndefined
  end.

Definition call_context_user (message : CallMessage) : JsVal :=
  match msg_call message with
  | Some {| call_user := Some u |} => user_id u
  | _ => JUndefined
  end.

Definition env_or (a b : option string) : option string :=
  if env_truthy a then a else b.

(** Lines 68-70 and 204-206. *)
Definition httpBase (env : Env) (wsUrl : string) : string :=
  match NEXT_PUBLIC_LIVEKIT_URL env with
  | Some u =>
      if startsWith "http" u then u
      else replace_prefix "ws:" "http:" (replace_prefix "wss:" "https:" wsUrl)
  | None => replace_prefix "ws:" "http:" (replace_prefix "wss:" "https:" wsUrl)
  end.

(** Lines 59-72 and 195-208: the host the room service client is built
    for, or the configuration error. *)
Definition roomService (env : Env) : Outcome string :=
  let apiKey := LIVEKIT_API_KEY env in
  let apiSecret := LIVEKIT_API_SECRET env in
  let wsUrl := env_or (LIVEKIT_URL env) (NEXT_PUBLIC_LIVEKIT_URL env) in
  if negb (env_truthy apiKey) || negb (env_truthy apiSecret) || negb (env_truthy wsUrl)
  then Throw "LiveKit not configured"
  else Return (httpBase env (default "" wsUrl)).

(** [requestId] is the value of the template at line 74, which the handler
    derives from [Math.random()] and [Date.now()]. *)
Definition handleCaptureScreenshot (env : Env) (requestId : string)
    (toolCall : ToolCall) (callId : JsVal) (message : CallMessage) : Prog JsVal :=
  let roomFromParams := p_roomName (tc_parameters toolCall) in
  let targetFromParams := p_targetIdentity (tc_parameters toolCall) in
  let question := p_question (tc_parameters toolCall) in
  let timeoutMs :=
    match p_timeoutMs (tc_parameters toolCall) with
    | JUndefined => JNum 25000
    | v => v
    end in
  let roomName := or roomFromParams (call_context_id message) in
  let targetIdentity := or targetFromParams (call_context_user message) in
  if negb (truthy roomName) || negb (truthy question) || negb (truthy targetIdentity) then
    Raise "roomName, question, and targetIdentity are required for capture_screenshot"
  else
    match roomService env with
    | Throw msg => Raise msg
    | Return host =>
        let payload := capture_screenshot question requestId in
        await_sendData
          {| sd_host := host;
             sd_room := roomName;
             sd_data := payload;
             sd_kind := 1;
             sd_destinationIdentities := [targetIdentity] |}
          (await_screenshot requestId timeoutMs
             (fun screenshotData => answer env question screenshotData))
    end.

Definition handleMarkStepComplete (env : Env) (requestId : string)
    (toolCall : ToolCall) (callId : JsVal) (message : CallMessage) : Prog JsVal :=
  let stepId := p_stepId (tc_parameters toolCall) in
  let roomFromParams := p_roomName (tc_parameters toolCall) in
  let targetFromParams := p_targetIdentity (tc_parameters toolCall) in
  let roomName := or roomFromParams (call_context_id message) in
  let targetIdentity := or targetFromParams (call_context_user message) in
  if negb (truthy roomName) || negb (truthy targetIdentity)
     || bool_decide (stepId = JUndefined) then
    Raise "roomName, targetIdentity, and stepId are required for markStepComplete"
  else
    match roomService env with
    | Throw msg => Raise msg
    | Return host =>
        let payload := mark_step_complete (Number stepId) requestId in
        await_sendData
          {| sd_host := host;
             sd_room := roomName;
             sd_data := payload;
             sd_kind := 1;
             sd_destinationIdentities := [targetIdentity] |}
          (Ret (JStr ("Step " +:+ ToString stepId +:+ " marked complete")))
    end.

(** ** The router (lines 225-326)

    [req] is the outcome of [await req.json()] after the normalisation of
    lines 231-258: the value of [message] at line 260. *)

Inductive Tool := CaptureScreenshotTool | MarkStepCompleteTool.

(** The [switch] of lines 276-291. *)
Definition classify (name : JsVal) : option Tool :=
  if bool_decide (name = JStr "capture_screenshot") then Some CaptureScreenshotTool
  else if bool_decide (name = JStr "captureScreenshot") then Some CaptureScreenshotTool
  else if bool_decide (name = JStr "markStepComplete") then Some MarkStepCompleteTool
  else None.

(** Lines 293-308: the response for a handler's result or error. *)
Definition tool_response (toolCall : ToolCall) (r : Outcome JsVal) : Prog Response :=
  match r with
  | Return result =>
      Ret (json (BToolSuccess (tc_name toolCall) (tc_id toolCall) result))
  | Throw msg =>
      Ret (json_status
             (BToolError ("Tool execution failed: " +:+ msg)
                (tc_name toolCall) (tc_id toolCall)) 500)
  end.

Definition POST (env : Env) (requestId : string) (req : Outcome (option CallMessage))
    : Prog Response :=
  match req with
  | Throw msg => Ret (json_status (BErrorDetails "Failed to process webhook" msg) 500)
  | Return None =>
      Ret (json_status (BError "Invalid event structure: Missing message object.") 400)
  | Return (Some message) =>
      match bool_decide (msg_type message = JStr "tool-call-attempt"), msg_tool_call message with
      | true, Some toolCall =>
          let callId := or (call_context_id message) (JStr "unknown") in
          match classify (tc_name toolCall) with
          | Some CaptureScreenshotTool =>
              try_catch (handleCaptureScreenshot env requestId toolCall callId message)
                (tool_response toolCall)
          | Some MarkStepCompleteTool =>
              try_catch (handleMarkStepComplete env requestId toolCall callId message)
                (tool_response toolCall)
          | None =>
              Ret (json_status (BError ("Unknown tool: " +:+ ToString (tc_name toolCall))) 400)
          end
      | _, _ =>
          Ret (json (BEvent ("Event type '" +:+ ToString (msg_type message)
                               +:+ "' received but not actively handled in this demo.")))
      end
  end.

(** Run a task to its end against a script: the transport's answers, the
    submissions of the capability client and the inference endpoint's
    answers are taken from [sends], [puts] and [fetches]; when nothing is
    submitted for a waiting request, time passes and its timer runs. *)
Record Script := {
  sends : Outcome unit;
  puts : list PutBody;
  fetches : Outcome FetchResponse;
}.

Definition play {A} (sc : Script) (p : Prog A) (w : World) : Task A * World :=
  let '(t1, w1) := start p w in
  let '(t2, w2) := sent (sends sc) t1 w1 in
  let w3 :=
    match t2 with
    | Waiting h _ =>
        match puts sc with
        | [] => fire h (tick (TIMEOUT_MAX + 1) w2)
        | bs => fold_left (fun w b => (PUT (Return b) w).2) bs w2
        end
    | _ => w2
    end in
  let '(t4, w4) := resume t2 w3 in
  fetched (fetches sc) t4 w4.

(** ** Predicates used in the statements *)

(** The request [h], registered under [rid], is live: its timer is still
    scheduled. *)
Definition live (rid : string) (h : nat) (w : World) : Prop :=
  exists tm, timers w !! h = Some tm /\ request tm = rid.

(** The worlds the operations preserve: a stored waiter settles the promise
    its timer belongs to, a scheduled timer belongs to a promise that is
    not settled, and no handle that is still free has been settled. *)
Record coherent (w : World) : Prop := {
  coh_waiter : forall rid wt,
    pendingScreenshots w !! rid = Some wt ->
    settle wt = timer wt /\ live rid (timer wt) w;
  coh_timer : forall tid tm,
    timers w !! tid = Some tm ->
    promise tm = tid /\ (tid < next_handle w)%nat /\ settlement tid (log w) = None;
  coh_fresh : forall p,
    (next_handle w <= p)%nat -> settlement p (log w) = None;
}.

(** What holds of a world in which every request id of [ids], and no
    other, has been registered, each once. *)
Record single_use (ids : list string) (w : World) : Prop := {
  su_unregistered : forall rid,
    rid ∉ ids -> settle_count rid (log w) = 0%nat /\ forall h, ~ live rid h w;
  su_once : forall rid, (settle_count rid (log w) <= 1)%nat;
  su_live : forall rid h, live rid h w -> settle_count rid (log w) = 0%nat;
  su_unique : forall rid h1 h2, live rid h1 w -> live rid h2 w -> h1 = h2;
}.

Definition carries (rid : string) (c : Command) : bool :=
  match c with
  | capture_screenshot _ r | mark_step_complete _ r => bool_decide (r = rid)
  end.

(** Whether the waiting room holds [rid] after the effects of a log. *)
Fixpoint held (rid : string) (l : list Effect) : bool :=
  match l with
  | [] => false
  | MapSet r _ :: older => if decide (r = rid) then true else held rid older
  | MapDelete r :: older => if decide (r = rid) then false else held rid older
  | _ :: older => held rid older
  end.

(** Whether every command that carries [rid] was sent while the waiting
    room held [rid]. *)
Fixpoint registered_when_sent (rid : string) (l : list Effect) : bool :=
  match l with
  | [] => true
  | e :: older =>
      registered_when_sent rid older
      && match e with
         | SentData s => if carries rid (sd_data s) then held rid older else true
         | _ => true
         end
  end.

Fixpoint has_char (c : ascii) (s : string) : bool :=
  match s with
  | EmptyString => false
  | String a rest => Ascii.eqb a c || has_char c rest
  end.


(** The commands sent according to a log, oldest first. *)
Definition sent_commands (l : list Effect) : list SendData :=
  rev (omap (fun e => match e with SentData s => Some s | _ => None end) l).

(** The request ids a log stores waiters for. *)
Definition stored_ids (l : list Effect) : list string :=
  omap (fun e => match e with MapSet r _ => Some r | _ => None end) l.

(** An event that neither submits a result for [rid] nor runs timer [h]. *)
Definition quiet (rid : string) (h : nat) (e : Event) : Prop :=
  match e with
  | EvPut (Return b) => b_requestId b <> JStr rid
  | EvTimer tid => tid <> h
  | _ => True
  end.

(** The room and the participant a tool call resolves to, after the
    fallback to the call context, and the timeout of a screenshot request. *)
Definition resolved_room (toolCall : ToolCall) (message : CallMessage) : JsVal :=
  or (p_roomName (tc_parameters toolCall)) (call_context_id message).

Definition resolved_target (toolCall : ToolCall) (message : CallMessage) : JsVal :=
  or (p_targetIdentity (tc_parameters toolCall)) (call_context_user message).

Definition effective_timeout (toolCall : ToolCall) : JsVal :=
  match p_timeoutMs (tc_parameters toolCall) with
  | JUndefined => JNum 25000
  | v => v
  end.

(** A required field of the tool is absent after the fallback. *)
Definition missing_field (tool : Tool) (toolCall : ToolCall) (message : CallMessage) : Prop :=
  match tool with
  | CaptureScreenshotTool =>
      truthy (resolved_room toolCall message) = false
      \/ truthy (p_question (tc_parameters toolCall)) = false
      \/ truthy (resolved_target toolCall message) = false
  | MarkStepCompleteTool =>
      truthy (resolved_room toolCall message) = false
      \/ truthy (resolved_target toolCall message) = false
      \/ p_stepId (tc_parameters toolCall) = JUndefined
  end.

Definition required_message (tool : Tool) : string :=
  match tool with
  | CaptureScreenshotTool =>
      "roomName, question, and targetIdentity are required for capture_screenshot"
  | MarkStepCompleteTool =>
      "roomName, targetIdentity, and stepId are required for markStepComplete"
  end.

(** The command a handler sends. *)
Definition command (host : string) (toolCall : ToolCall) (message : CallMessage)
    (c : Command) : SendData :=
  {| sd_host := host;
     sd_room := resolved_room toolCall message;
     sd_data := c;
     sd_kind := 1;
     sd_destinationIdentities := [resolved_target toolCall message] |}.

(** ** Sample inputs *)

Module Sample.

Definition env (openai : option string) : Env :=
  {| LIVEKIT_API_KEY := Some "key";
     LIVEKIT_API_SECRET := Some "secret";
     LIVEKIT_URL := Some "wss://rooms.example";
     NEXT_PUBLIC_LIVEKIT_URL := None;
     OPENAI_API_KEY := openai |}.

Definition parameters (question stepId : JsVal) : Parameters :=
  {| p_roomName := JUndefined;
     p_targetIdentity := JUndefined;
     p_question := question;
     p_timeoutMs := JUndefined;
     p_stepId := stepId |}.

Definition toolCall (name : string) (question stepId : JsVal) : ToolCall :=
  {| tc_name := JStr name; tc_id := JStr "call_1"; tc_parameters := parameters question stepId |}.

Definition message (tc : ToolCall) : CallMessage :=
  {| msg_type := JStr "tool-call-attempt";
     msg_call := Some {| call_id := JStr "room-7"; call_user := Some {| user_id := JStr "web-ab12" |} |};
     msg_tool_call := Some tc |}.

Definition screenshot (rid image : string) : PutBody :=
  {| b_requestId := JStr rid;
     b_imageBase64 := JStr image;
     b_question := JStr "What is this?";
     b_answer := JUndefined;
     b_stepCompleted := JUndefined;
     b_success := JUndefined |}.

Definition legacy (rid ans : string) : PutBody :=
  {| b_requestId := JStr rid;
     b_imageBase64 := JUndefined;
     b_question := JUndefined;
     b_answer := JStr ans;
     b_stepCompleted := JUndefined;
     b_success := JUndefined |}.

Definition script (bs : list PutBody) : Script :=
  {| sends := Return tt;
     puts := bs;
     fetches := Return {| res_ok := true; res_text := ""; res_output := None |} |}.

End Sample.

(** ** Further readings of a log *)

(** How often the [resolve] or [reject] of promise [h] was called. *)
Definition handle_settle_count (h : nat) (l : list Effect) : nat :=
  length (filter (fun e => settles h e = true) l).

(** The requests made to the inference endpoint, oldest first. *)
Definition fetch_requests (l : list Effect) : list FetchRequest :=
  rev (omap (fun e => match e with Fetched r => Some r | _ => None end) l).

(** ** The webhook dialect (route.ts, lines 230-258) *)

Record RawUser := { ru_id : JsVal }.

Record RawData := {
  rd_tool_name : JsVal;
  rd_tool_id : JsVal;
  rd_parameters : option Parameters;
  rd_agent_name : JsVal;
}.

Record RawUserData := {
  ud_room_name : JsVal;
  ud_roomName : JsVal;
  ud_user_id : JsVal;
  ud_userId : JsVal;
}.

(** The keys of the request body that [POST] reads; a key that is not
    present is [None] or [JUndefined]. *)
Record Raw := {
  raw_message : option CallMessage;
  raw_event : JsVal;
  raw_data : option RawData;
  raw_user_data_dict : option RawUserData;
  raw_user_data : option RawUserData;
  raw_userData : option RawUserData;
  raw_room_name : JsVal;
  raw_roomName : JsVal;
  raw_user : option RawUser;
  raw_user_id : JsVal;
  raw_userId : JsVal;
}.

(** [{}] *)
Definition no_parameters : Parameters :=
  {| p_roomName := JUndefined; p_targetIdentity := JUndefined; p_question := JUndefined;
     p_timeoutMs := JUndefined; p_stepId := JUndefined |}.

Definition no_data : RawData :=
  {| rd_tool_name := JUndefined; rd_tool_id := JUndefined; rd_parameters := None;
     rd_agent_name := JUndefined |}.

Definition no_user_data : RawUserData :=
  {| ud_room_name := JUndefined; ud_roomName := JUndefined; ud_user_id := JUndefined;
     ud_userId := JUndefined |}.

(** [a || b] on objects. *)
Definition first_present {A} (a b : option A) : option A :=
  match a with Some _ => a | None => b end.

(** Lines 231-258: the value of [message] at line 260. *)
Definition normalize_event (raw : Raw) : option CallMessage :=
  match raw_message raw with
  | Some message => Some message
  | None =>
      if truthy (raw_event raw) then
        let evt := ToString (or (raw_event raw) (JStr "")) in
        let data := default no_data (raw_data raw) in
        let userData :=
          default no_user_data
            (first_present (raw_user_data_dict raw)
               (first_present (raw_user_data raw) (raw_userData raw))) in
        let callId :=
          or (raw_room_name raw)
            (or (raw_roomName raw) (or (ud_room_name userData) (ud_roomName userData))) in
        let userId :=
          or (match raw_user raw with Some u => ru_id u | None => JUndefined end)
            (or (raw_user_id raw)
               (or (raw_userId raw) (or (ud_user_id userData) (ud_userId userData)))) in
        if String.eqb evt "tool.attempted" then
          Some {| msg_type := JStr "tool-call-attempt";
                  msg_call :=
                    Some {| call_id := callId;
                            call_user :=
                              if truthy userId
                              then Some {| user_id := JStr (ToString userId) |}
                              else None |};
                  msg_tool_call :=
                    Some {| tc_name := rd_tool_name data;
                            tc_id := rd_tool_id data;
                            tc_parameters := default no_parameters (rd_parameters data) |} |}
        else None
      else None
  end.

(** [POST] on the parsed request body; a body that is [null] is [None]. *)
Definition POST_body (env : Env) (requestId : string) (req : Outcome (option Raw))
    : Prog Response :=
  POST env requestId
    (match req with
     | Throw msg => Throw msg
     | Return None => Return None
     | Return (Some raw) => Return (normalize_event raw)
     end).

(** ** The capability client (the page that joins the room)

    The state the message handler works on: the steps of the lab and the
    log shown on the page.  A log line is kept by its template and its
    arguments. *)

Inductive StepStatus := pending | in_progress | completed.

#[global] Instance StepStatus_eq_dec : EqDecision StepStatus.
Proof. solve_decision. Defined.

Record Step := {
  step_id : Z;
  step_title : string;
  step_description : string;
  step_status : StepStatus;
  step_verificationCriteria : list string;
}.

Definition set_status (st : StepStatus) (s : Step) : Step :=
  {| step_id := step_id s;
     step_title := step_title s;
     step_description := step_description s;
     step_status := st;
     step_verificationCriteria := step_verificationCriteria s |}.

Inductive LogLine :=
| LogReceivedCapture (question : JsVal)
| LogScreenshotFailed
| LogScreenshotSubmitted
| LogReceivedMark (stepId : Z)
| LogStepMarked (stepId : Z)
| LogDataError (msg : string).

(** [addLog]: the newest line first, at most 200 lines. *)
Definition addLog (msg : LogLine) (prev : list LogLine) : list LogLine :=
  take 200 (msg :: prev).

(** [steps.findIndex(p)]; [None] is -1. *)
Fixpoint findIndex {A} (p : A -> bool) (l : list A) : option nat :=
  match l with
  | [] => None
  | x :: rest => if p x then Some 0%nat else S <$> findIndex p rest
  end.

(** The updater [markStepComplete] passes to [setSteps]. *)
Definition complete_step (stepId : Z) (prevSteps : list Step) : list Step :=
  match findIndex (fun s => step_id s =? stepId) prevSteps with
  | Some stepIndex =>
      let newSteps := alter (set_status completed) stepIndex prevSteps in
      match findIndex (fun s => step_id s =? stepId + 1) newSteps with
      | Some next =>
          match newSteps !! next with
          | Some nextStep =>
              if decide (step_status nextStep = pending)
              then alter (set_status in_progress) next newSteps
              else newSteps
          | None => newSteps
          end
      | None => newSteps
      end
  | None => prevSteps
  end.

Record Client := {
  steps : list Step;
  logs : list LogLine;
}.

(** [markStepComplete(stepId)] *)
Definition markStepComplete (stepId : Z) (c : Client) : Client :=
  {| steps := complete_step stepId (steps c);
     logs := addLog (LogStepMarked stepId) (logs c) |}.

(** A data-channel message after [JSON.parse], by its [type]. *)
Inductive IncomingMessage :=
| MsgCaptureScreenshot (question requestId : JsVal)
| MsgMarkStepComplete (stepId : Z) (requestId : JsVal)
| MsgOther.

(** [handleData]: the new state of the page and the bodies it submits with
    [PUT].  [parsed] is the outcome of decoding and parsing the payload,
    [shot] that of [captureScreenshot()] and [put] that of the [fetch]. *)
Definition handleData (parsed : Outcome IncomingMessage) (shot : Outcome (option string))
    (put : Outcome unit) (c : Client) : Client * list PutBody :=
  let log msg c := {| steps := steps c; logs := addLog msg (logs c) |} in
  match parsed with
  | Throw msg => (log (LogDataError msg) c, [])
  | Return (MsgCaptureScreenshot question requestId) =>
      let c := log (LogReceivedCapture question) c in
      match shot with
      | Throw msg => (log (LogDataError msg) c, [])
      | Return None => (log LogScreenshotFailed c, [])
      | Return (Some imageBase64) =>
          if negb (truthy (JStr imageBase64)) then (log LogScreenshotFailed c, [])
          else
            let body :=
              {| b_requestId := requestId;
                 b_imageBase64 := JStr imageBase64;
                 b_question := question;
                 b_answer := JUndefined;
                 b_stepCompleted := JUndefined;
                 b_success := JUndefined |} in
            match put with
            | Throw msg => (log (LogDataError msg) c, [body])
            | Return _ => (log LogScreenshotSubmitted c, [body])
            end
      end
  | Return (MsgMarkStepComplete stepId requestId) =>
      let c := markStepComplete stepId (log (LogReceivedMark stepId) c) in
      if truthy requestId then
        let body :=
          {| b_requestId := requestId;
             b_imageBase64 := JUndefined;
             b_question := JUndefined;
             b_answer := JUndefined;
             b_stepCompleted := JNum stepId;
             b_success := JBool true |} in
        match put with
        | Throw msg => (log (LogDataError msg) c, [body])
        | Return _ => (c, [body])
        end
      else (c, [])
  | Return MsgOther => (c, [])
  end.


(** The command a tool sends. *)
Definition tool_command (tool : Tool) (rid : string) (toolCall : ToolCall) : Command :=
  match tool with
  | CaptureScreenshotTool => capture_screenshot (p_question (tc_parameters toolCall)) rid
  | MarkStepCompleteTool => mark_step_complete (Number (p_stepId (tc_parameters toolCall))) rid
  end.

(** The tests of lines 175-176. *)
Definition is_message (item : OutputItem) : bool :=
  bool_decide (oi_type item = JStr "message").
Definition is_output_text (item : ContentItem) : bool :=
  bool_decide (ci_type item = JStr "output_text").

Definition status_rank (st : StepStatus) : nat :=
  match st with pending => 0 | in_progress => 1 | completed => 2 end.

(** A step and what an update makes of it: the same step, not further
    back in its status. *)
Definition advanced (s s' : Step) : Prop :=
  step_id s' = step_id s
  /\ step_title s' = step_title s
  /\ step_description s' = step_description s
  /\ step_verificationCriteria s' = step_verificationCriteria s
  /\ (status_rank (step_status s) <= status_rank (step_status s'))%nat.

(** * Proofs *)

(** ** Base64 *)

Module Base64Facts.
Import Base64.
Local Open Scope N_scope.

Lemma forall_below_64 (P : N -> bool) :
  forallb P below_64 = true -> forall n, n < 64 -> P n = true.
Proof.
  intros Hall n Hn.
  rewrite forallb_forall in Hall. apply Hall.
  unfold below_64. apply in_map_iff. exists (N.to_nat n). split.
  - apply N2Nat.id.
  - apply in_seq. lia.
Qed.

Lemma b64_value_char n : n < 64 -> b64_value (b64_char n) = Some n.
Proof.
  intros Hn.
  pose proof (forall_below_64
    (fun n => bool_decide (b64_value (b64_char n) = Some n)) eq_refl n Hn) as H.
  by apply bool_decide_eq_true in H.
Qed.

Lemma b64_char_not_pad n : n < 64 -> Ascii.eqb (b64_char n) pad = false.
Proof.
  intros Hn.
  pose proof (forall_below_64
    (fun n => negb (Ascii.eqb (b64_char n) pad)) eq_refl n Hn) as H.
  by apply negb_true_iff in H.
Qed.

Lemma b64_char_plain n : n < 64 -> plain (b64_char n) = true.
Proof. intros Hn. exact (forall_below_64 (fun n => plain (b64_char n)) eq_refl n Hn). Qed.

Lemma sextets_char n s : n < 64 -> sextets (String (b64_char n) s) = n :: sextets s.
Proof.
  intros Hn. cbn [sextets].
  by rewrite (b64_char_not_pad n Hn), (b64_value_char n Hn).
Qed.

Lemma sextets_pad s : sextets (String pad s) = [].
Proof. reflexivity. Qed.

Lemma to_byte_to_N x : to_byte (Byte.to_N x) = x.
Proof.
  unfold to_byte. pose proof (Byte.to_N_bounded x).
  rewrite N.mod_small by lia. by rewrite Byte.of_to_N.
Qed.

Lemma buffer_ind3 (P : Buffer -> Prop) :
  P [] -> (forall x, P [x]) -> (forall x y, P [x; y]) ->
  (forall x y z rest, P rest -> P (x :: y :: z :: rest)) ->
  forall buf, P buf.
Proof.
  intros H0 H1 H2 H3. fix IH 1.
  intros [|x [|y [|z rest]]]; [done | done | done |].
  apply H3, IH.
Qed.

Ltac euclid := zify; Z.to_euclidean_division_equations; lia.

Section Groups.
Variables x y z : byte.
Let a := Byte.to_N x.
Let b := Byte.to_N y.
Let c := Byte.to_N z.

Lemma byte_bounds : a < 256 /\ b < 256 /\ c < 256.
Proof.
  pose proof (Byte.to_N_bounded x). pose proof (Byte.to_N_bounded y).
  pose proof (Byte.to_N_bounded z). unfold a, b, c. lia.
Qed.

Lemma sextet_bounds :
  a / 4 < 64 /\ (a mod 4) * 16 < 64 /\ (a mod 4) * 16 + b / 16 < 64
  /\ (b mod 16) * 4 < 64 /\ (b mod 16) * 4 + c / 64 < 64 /\ c mod 64 < 64.
Proof. pose proof byte_bounds. repeat split; euclid. Qed.

Lemma first_byte : a / 4 * 4 + ((a mod 4) * 16 + b / 16) / 16 = a.
Proof. pose proof byte_bounds. euclid. Qed.

Lemma first_byte_alone : a / 4 * 4 + ((a mod 4) * 16) / 16 = a.
Proof. pose proof byte_bounds. euclid. Qed.

Lemma second_byte :
  (((a mod 4) * 16 + b / 16) mod 16) * 16 + ((b mod 16) * 4 + c / 64) / 4 = b.
Proof. pose proof byte_bounds. euclid. Qed.

Lemma second_byte_alone :
  (((a mod 4) * 16 + b / 16) mod 16) * 16 + ((b mod 16) * 4) / 4 = b.
Proof. pose proof byte_bounds. euclid. Qed.

Lemma third_byte : (((b mod 16) * 4 + c / 64) mod 4) * 64 + c mod 64 = c.
Proof. pose proof byte_bounds. euclid. Qed.
End Groups.

Lemma from_toString buf : from (toString buf) = buf.
Proof.
  unfold from. induction buf as [|x|x y|x y z rest IH] using buffer_ind3.
  - reflexivity.
  - destruct (sextet_bounds x x x) as (H1 & H2 & _).
    cbn [toString]. rewrite !sextets_char, sextets_pad by assumption.
    cbn [bytes_of_sextets]. by rewrite first_byte_alone, to_byte_to_N.
  - destruct (sextet_bounds x y y) as (H1 & _ & H2 & H3 & _).
    cbn [toString]. rewrite !sextets_char, sextets_pad by assumption.
    cbn [bytes_of_sextets].
    by rewrite first_byte, second_byte_alone, !to_byte_to_N.
  - destruct (sextet_bounds x y z) as (H1 & _ & H2 & _ & H3 & H4).
    cbn [toString]. rewrite !sextets_char by assumption.
    cbn [bytes_of_sextets]. fold (bytes_of_sextets (sextets (toString rest))).
    by rewrite IH, first_byte, second_byte, third_byte, !to_byte_to_N.
Qed.

Lemma toString_plain buf : all_plain (toString buf) = true.
Proof.
  induction buf as [|x|x y|x y z rest IH] using buffer_ind3.
  - reflexivity.
  - destruct (sextet_bounds x x x) as (H1 & H2 & _).
    cbn [toString all_plain]. by rewrite !b64_char_plain by assumption.
  - destruct (sextet_bounds x y y) as (H1 & _ & H2 & H3 & _).
    cbn [toString all_plain]. by rewrite !b64_char_plain by assumption.
  - destruct (sextet_bounds x y z) as (H1 & _ & H2 & _ & H3 & H4).
    cbn [toString all_plain]. by rewrite !b64_char_plain, IH by assumption.
Qed.

Lemma strip_whitespace_plain s : all_plain s = true -> strip_whitespace s = s.
Proof.
  induction s as [|c s IH]; [done|].
  cbn [all_plain strip_whitespace]. unfold plain.
  intros H. apply andb_true_iff in H as [Hc Hs].
  apply andb_true_iff in Hc as [Hc _]. apply negb_true_iff in Hc.
  by rewrite Hc, IH.
Qed.

Lemma startsWith_append p s : startsWith p s = true -> exists rest, s = p +:+ rest.
Proof.
  revert s. induction p as [|a p IH]; intros s H.
  - by exists s.
  - destruct s as [|b s]; [done|]. cbn [startsWith] in H.
    destruct (Ascii.eqb a b) eqn:Hab; [|done].
    apply Ascii.eqb_eq in Hab as ->.
    destruct (IH s H) as [rest ->]. by exists rest.
Qed.

Lemma startsWith_data_plain s : all_plain s = true -> startsWith "data:" s = false.
Proof.
  intros H. destruct (startsWith "data:" s) eqn:Hs; [|done].
  apply startsWith_append in Hs as [rest ->].
  cbn in H. discriminate H.
Qed.

Lemma toString_nonempty buf : buf <> [] -> toString buf <> EmptyString.
Proof. destruct buf as [|x [|y [|z rest]]]; done. Qed.

End Base64Facts.

(** ** The waiting room *)

Tactic Notation "world_simpl" :=
  cbn [pendingScreenshots timers now next_handle log
       log_effect register fire tick fst snd settle timer due request promise].
Tactic Notation "world_simpl" "in" hyp(H) :=
  cbn [pendingScreenshots timers now next_handle log
       log_effect register fire tick fst snd settle timer due request promise] in H.

Section Settlement.
Implicit Types (h p : nat) (l : list Effect) (e : Effect).

Lemma settlement_skip h e l :
  settles h e = false -> settlement h (e :: l) = settlement h l.
Proof.
  intros He. cbn [settlement]. destruct (settlement h l); [done|].
  destruct e; try done; cbn in He; case_decide; try done;
    by rewrite bool_decide_eq_false in He.
Qed.

Lemma settlement_resolve h rid v l :
  settlement h l = None -> settlement h (Resolve rid h v :: l) = Some (Resolved v).
Proof. intros Hl. cbn [settlement]. rewrite Hl. by rewrite decide_True. Qed.

Lemma settlement_reject h rid msg l :
  settlement h l = None -> settlement h (Reject rid h msg :: l) = Some (Rejected msg).
Proof. intros Hl. cbn [settlement]. rewrite Hl. by rewrite decide_True. Qed.

(** A promise keeps its first settlement. *)
Lemma settlement_keeps h e l s :
  settlement h l = Some s -> settlement h (e :: l) = Some s.
Proof. intros Hl. cbn [settlement]. by rewrite Hl. Qed.
End Settlement.

Lemma waiting_room_get_str rid w :
  waiting_room_get (JStr rid) w = (fun wt => (rid, wt)) <$> pendingScreenshots w !! rid.
Proof. reflexivity. Qed.

Lemma waiting_room_get_Some requestId w rid wt :
  waiting_room_get requestId w = Some (rid, wt) ->
  requestId = JStr rid /\ pendingScreenshots w !! rid = Some wt.
Proof.
  destruct requestId; try done. cbn.
  destruct (pendingScreenshots w !! s) eqn:E; [|done]. cbn. by intros [= -> ->].
Qed.

(** [PUT] leaves the world alone or delivers to a stored waiter. *)
Lemma PUT_world req w :
  (PUT req w).2 = w
  \/ exists b rid wt,
       req = Return b /\ b_requestId b = JStr rid
       /\ pendingScreenshots w !! rid = Some wt
       /\ (PUT req w).2
          = {| pendingScreenshots := delete rid (pendingScreenshots w);
               timers := delete (timer wt) (timers w);
               now := now w;
               next_handle := next_handle w;
               log := Resolve rid (settle wt) (submitted b)
                        :: ClearTimeout (timer wt) :: MapDelete rid :: log w |}.
Proof.
  unfold PUT. destruct req as [b|msg]; [|by left].
  destruct (negb (truthy (b_requestId b))); [by left|].
  destruct (negb (bool_decide (b_stepCompleted b = JUndefined))); [by left|].
  unfold deliver.
  destruct (waiting_room_get (b_requestId b) w) as [[rid wt]|] eqn:Hget; [|by left].
  apply waiting_room_get_Some in Hget as [Hid Hin].
  right. exists b, rid, wt. done.
Qed.

Lemma coherent_initial : coherent initial.
Proof. split; cbn; intros; by rewrite ?lookup_empty in *. Qed.

Lemma coherent_log_effect e w :
  (forall p, settles p e = false) -> coherent w -> coherent (log_effect e w).
Proof.
  intros He [Hw Ht Hf]. split; world_simpl.
  - intros rid wt Hrid. exact (Hw rid wt Hrid).
  - intros tid tm Htid. destruct (Ht tid tm Htid) as (? & ? & ?).
    by rewrite settlement_skip.
  - intros p Hp. rewrite settlement_skip; auto.
Qed.

Lemma coherent_tick d w : coherent w -> coherent (tick d w).
Proof. intros [Hw Ht Hf]. by split. Qed.

Lemma coherent_register rid t w :
  coherent w -> coherent (register rid t w).2.
Proof.
  intros [Hw Ht Hf]. split; world_simpl.
  - intros rid' wt. destruct (decide (rid = rid')) as [<-|Hne].
    + rewrite lookup_insert_eq. intros [= <-]. world_simpl. split; [done|].
      eexists. world_simpl. rewrite lookup_insert_eq. by split.
    + rewrite lookup_insert_ne by done. intros Hrid.
      destruct (Hw rid' wt Hrid) as [Heq (tm & Htm & Hreq)]. split; [done|].
      exists tm. split; [|done]. world_simpl.
      destruct (Ht _ _ Htm) as (_ & Hlt & _).
      rewrite lookup_insert_ne by lia. done.
  - intros tid tm. destruct (decide (next_handle w = tid)) as [<-|Hne].
    + rewrite lookup_insert_eq. intros [= <-]. world_simpl.
      rewrite !settlement_skip by done. split; [done|]. split; [lia|].
      by apply Hf.
    + rewrite lookup_insert_ne by done. intros Htid.
      destruct (Ht tid tm Htid) as (? & ? & ?).
      rewrite !settlement_skip by done. repeat split; [done|lia|done].
  - intros p Hp. rewrite !settlement_skip by done. apply Hf. lia.
Qed.

Lemma live_same_timer w rid1 rid2 h : live rid1 h w -> live rid2 h w -> rid1 = rid2.
Proof. intros (tm1 & H1 & <-) (tm2 & H2 & <-). congruence. Qed.

Lemma coherent_deliver requestId payload w :
  coherent w -> coherent (deliver requestId payload w).2.
Proof.
  intros Hc. unfold deliver.
  destruct (waiting_room_get requestId w) as [[rid wt]|] eqn:Hget; [|done].
  apply waiting_room_get_Some in Hget as [-> Hrid].
  destruct Hc as [Hw Ht Hf].
  destruct (Hw rid wt Hrid) as [Heq Hlive].
  destruct (Hlive) as (tm & Htm & Hreq).
  destruct (Ht _ _ Htm) as (Hp & Hlt & Hnone).
  split; world_simpl.
  - intros rid' wt'. destruct (decide (rid = rid')) as [<-|Hne].
    + by rewrite lookup_delete_eq.
    + rewrite lookup_delete_ne by done. intros Hrid'.
      destruct (Hw rid' wt' Hrid') as [Heq' Hlive']. split; [done|].
      destruct Hlive' as (tm' & Htm' & Hreq'). exists tm'. split; [|done]. world_simpl.
      rewrite lookup_delete_ne; [done|]. intros Hsame. rewrite Hsame in Htm.
      congruence.
  - intros tid tm'. destruct (decide (timer wt = tid)) as [<-|Hne].
    + by rewrite lookup_delete_eq.
    + rewrite lookup_delete_ne by done. intros Htid.
      destruct (Ht tid tm' Htid) as (? & ? & ?).
      rewrite !settlement_skip; [done|done|done|].
      cbn. rewrite Heq. by apply bool_decide_eq_false.
  - intros p Hge. rewrite !settlement_skip; [by apply Hf|done|done|].
    cbn. rewrite Heq. apply bool_decide_eq_false. lia.
Qed.

Lemma coherent_PUT req w : coherent w -> coherent (PUT req w).2.
Proof.
  intros Hc. unfold PUT. destruct req as [b|msg]; [|done].
  repeat (case_match; try done).
  - match goal with H : deliver _ _ _ = _ |- _ =>
      apply (f_equal snd) in H; cbn in H; subst end.
    by apply coherent_deliver.
  - match goal with H : deliver _ _ _ = _ |- _ =>
      apply (f_equal snd) in H; cbn in H; subst end.
    by apply coherent_deliver.
Qed.

Lemma coherent_fire tid w : coherent w -> coherent (fire tid w).
Proof.
  intros Hc. unfold fire.
  destruct (timers w !! tid) as [tm|] eqn:Htm; [|done].
  destruct (timer_due tm (now w)); [|done].
  destruct Hc as [Hw Ht Hf].
  destruct (Ht _ _ Htm) as (Hp & Hlt & Hnone).
  split; world_simpl.
  - intros rid' wt'. destruct (decide (request tm = rid')) as [<-|Hne].
    + by rewrite lookup_delete_eq.
    + rewrite lookup_delete_ne by done. intros Hrid'.
      destruct (Hw rid' wt' Hrid') as [Heq' Hlive']. split; [done|].
      destruct Hlive' as (tm' & Htm' & Hreq'). exists tm'. split; [|done]. world_simpl.
      rewrite lookup_delete_ne; [done|]. intros Hsame. rewrite Hsame in Htm.
      congruence.
  - intros tid' tm'. destruct (decide (tid = tid')) as [<-|Hne].
    + by rewrite lookup_delete_eq.
    + rewrite lookup_delete_ne by done. intros Htid.
      destruct (Ht tid' tm' Htid) as (? & ? & ?).
      rewrite !settlement_skip; [done|done|].
      cbn. rewrite Hp. by apply bool_decide_eq_false.
  - intros p Hp'. rewrite !settlement_skip; [by apply Hf|done|].
    cbn. rewrite Hp. apply bool_decide_eq_false. lia.
Qed.

Lemma coherent_step w e : coherent w -> coherent (step w e).
Proof.
  intros Hc. destruct e as [rid t|req|tid|d|[s|r]]; cbn [step].
  - by apply coherent_register.
  - by apply coherent_PUT.
  - by apply coherent_fire.
  - by apply coherent_tick.
  - by apply coherent_log_effect.
  - by apply coherent_log_effect.
Qed.

Lemma coherent_run evs w : coherent w -> coherent (run evs w).
Proof.
  revert w. induction evs as [|e evs IH]; intros w Hc; [done|].
  cbn. apply IH. by apply coherent_step.
Qed.

Lemma run_app evs1 evs2 w : run (evs1 ++ evs2) w = run evs2 (run evs1 w).
Proof. unfold run. by rewrite fold_left_app. Qed.

(** ** One settlement per request id *)

Lemma settle_count_cons rid e l :
  settle_count rid (e :: l)
  = ((if settles_request rid e then 1 else 0) + settle_count rid l)%nat.
Proof.
  unfold settle_count. rewrite filter_cons.
  destruct (settles_request rid e); case_decide; done.
Qed.

Lemma settle_count_skip rid e l :
  settles_request rid e = false -> settle_count rid (e :: l) = settle_count rid l.
Proof. intros He. by rewrite settle_count_cons, He. Qed.

Lemma single_use_initial : single_use [] initial.
Proof.
  split; cbn; try done.
  - intros rid _. split; [done|]. intros h (tm & Htm & _).
    unfold initial in Htm. cbn [timers] in Htm. by rewrite lookup_empty in Htm.
  - intros rid. unfold settle_count. cbn. lia.
  - intros rid h1 h2 (tm & Htm & _).
    unfold initial in Htm. cbn [timers] in Htm. by rewrite lookup_empty in Htm.
Qed.

(** A step that leaves timers and settlements alone. *)
Lemma single_use_same ids w w' :
  timers w' = timers w ->
  (forall rid, settle_count rid (log w') = settle_count rid (log w)) ->
  single_use ids w -> single_use ids w'.
Proof.
  intros Ht Hc [Hu Ho Hl Hq].
  assert (Hlive : forall rid h, live rid h w' <-> live rid h w).
  { intros rid h. unfold live. by rewrite Ht. }
  split.
  - intros rid Hrid. rewrite Hc. destruct (Hu rid Hrid) as [? Hn]. split; [done|].
    intros h Hh. apply (Hn h). by apply Hlive.
  - intros rid. rewrite Hc. apply Ho.
  - intros rid h Hh. rewrite Hc. apply (Hl rid h). by apply Hlive.
  - intros rid h1 h2 H1 H2. apply (Hq rid); by apply Hlive.
Qed.

(** A step that settles the live request [h] of [rid] and removes its
    timer. *)
Lemma single_use_settle ids w w' rid h :
  live rid h w ->
  timers w' = delete h (timers w) ->
  (forall rid', settle_count rid' (log w')
                = ((if decide (rid' = rid) then 1 else 0) + settle_count rid' (log w))%nat) ->
  single_use ids w -> single_use ids w'.
Proof.
  intros Hh Ht Hc [Hu Ho Hl Hq].
  assert (Hlive : forall rid' h', live rid' h' w' <-> h' <> h /\ live rid' h' w).
  { intros rid' h'. unfold live. rewrite Ht. split.
    - intros (tm & Htm & Hr). apply lookup_delete_Some in Htm as [? ?]. eauto.
    - intros (Hne & tm & Htm & Hr). exists tm. split; [|done].
      by rewrite lookup_delete_ne. }
  split.
  - intros rid' Hrid'. destruct (Hu rid' Hrid') as [H0 Hn].
    assert (rid' <> rid) by (intros ->; by apply (Hn h)).
    rewrite Hc, decide_False by done. split; [done|].
    intros h' Hh'. apply Hlive in Hh' as [_ Hh']. by apply (Hn h').
  - intros rid'. rewrite Hc. case_decide as Hd.
    + subst rid'. rewrite (Hl rid h Hh). lia.
    + apply Ho.
  - intros rid' h' Hh'. apply Hlive in Hh' as [Hne Hh'].
    rewrite Hc. case_decide as Hd.
    + subst rid'. by destruct Hne; apply (Hq rid).
    + by apply (Hl rid' h').
  - intros rid' h1 h2 H1 H2. apply Hlive in H1 as [_ H1]. apply Hlive in H2 as [_ H2].
    by apply (Hq rid').
Qed.

Lemma single_use_register ids rid t w :
  coherent w -> rid ∉ ids ->
  single_use ids w -> single_use (ids ++ [rid]) (register rid t w).2.
Proof.
  intros [Hw Ht Hf] Hrid [Hu Ho Hl Hq].
  assert (Hfree : timers w !! next_handle w = None).
  { destruct (timers w !! next_handle w) as [tm|] eqn:E; [|done].
    destruct (Ht _ _ E) as (_ & ? & _). lia. }
  assert (Hlive : forall rid' h', live rid' h' (register rid t w).2
                    <-> (h' = next_handle w /\ rid' = rid) \/ live rid' h' w).
  { intros rid' h'. unfold live. world_simpl. split.
    - intros (tm & Htm & Hr). apply lookup_insert_Some in Htm as [[<- <-]|[? ?]]; [by left|].
      right. eauto.
    - intros [[-> ->]|(tm & Htm & Hr)].
      + eexists. rewrite lookup_insert_eq. done.
      + exists tm. split; [|done]. rewrite lookup_insert_ne; [done|]. congruence. }
  assert (Hc : forall rid', settle_count rid' (log (register rid t w).2)
                            = settle_count rid' (log w)).
  { intros rid'. world_simpl. by rewrite !settle_count_skip. }
  destruct (Hu rid Hrid) as [Hzero Hnone].
  split.
  - intros rid' Hrid'. apply not_elem_of_app in Hrid' as [Hrid' Hne].
    apply not_elem_of_cons in Hne as [Hne _].
    destruct (Hu rid' Hrid') as [? Hn]. rewrite Hc. split; [done|].
    intros h' Hh'. apply Hlive in Hh' as [[_ ?]|Hh']; [done|]. by apply (Hn h').
  - intros rid'. rewrite Hc. apply Ho.
  - intros rid' h' Hh'. rewrite Hc. apply Hlive in Hh' as [[_ ->]|Hh']; [done|].
    by apply (Hl rid' h').
  - intros rid' h1 h2 H1 H2.
    apply Hlive in H1 as [[-> ->]|H1]; apply Hlive in H2 as [[-> E]|H2]; try done.
    + by destruct (Hnone h2).
    + subst rid'. by destruct (Hnone h1).
    + by apply (Hq rid').
Qed.

Lemma single_use_deliver ids requestId payload w :
  coherent w -> single_use ids w -> single_use ids (deliver requestId payload w).2.
Proof.
  intros Hc Hs. unfold deliver.
  destruct (waiting_room_get requestId w) as [[rid wt]|] eqn:Hget; [|done].
  apply waiting_room_get_Some in Hget as [-> Hrid].
  destruct (coh_waiter w Hc rid wt Hrid) as [Heq Hlive].
  apply (single_use_settle ids w _ rid (timer wt)); [done|done| |done].
  intros rid'. world_simpl. rewrite settle_count_cons, !settle_count_skip by done.
  cbn [settles_request]. destruct (decide (rid' = rid)) as [->|Hne].
  - by rewrite bool_decide_eq_true_2.
  - by rewrite bool_decide_eq_false_2.
Qed.

Lemma single_use_PUT ids req w :
  coherent w -> single_use ids w -> single_use ids (PUT req w).2.
Proof.
  intros Hc Hs. unfold PUT. destruct req as [b|msg]; [|done].
  repeat (case_match; try done);
    match goal with H : deliver _ _ _ = _ |- _ =>
      apply (f_equal snd) in H; cbn in H; subst end;
    by apply single_use_deliver.
Qed.

Lemma single_use_fire ids tid w :
  coherent w -> single_use ids w -> single_use ids (fire tid w).
Proof.
  intros Hc Hs. unfold fire.
  destruct (timers w !! tid) as [tm|] eqn:Htm; [|done].
  destruct (timer_due tm (now w)); [|done].
  apply (single_use_settle ids w _ (request tm) tid); [by exists tm|done| |done].
  intros rid'. world_simpl. rewrite settle_count_cons, !settle_count_skip by done.
  cbn [settles_request]. destruct (decide (rid' = request tm)) as [->|Hne].
  - by rewrite bool_decide_eq_true_2.
  - by rewrite bool_decide_eq_false_2.
Qed.

Lemma registered_ids_app evs1 evs2 :
  registered_ids (evs1 ++ evs2) = (registered_ids evs1 ++ registered_ids evs2)%list.
Proof. apply omap_app. Qed.

Lemma single_use_run evs :
  NoDup (registered_ids evs) ->
  single_use (registered_ids evs) (run evs initial).
Proof.
  induction evs as [|e evs IH] using rev_ind; intros Hnd.
  - apply single_use_initial.
  - rewrite registered_ids_app in Hnd |- *. rewrite run_app.
    apply NoDup_app in Hnd as (Hnd & Hfresh & _). specialize (IH Hnd).
    pose proof (coherent_run evs initial coherent_initial) as Hc.
    destruct e as [rid t|req|tid|d|[s|r]]; cbn [registered_ids omap run fold_left step].
    + apply single_use_register; [done| |done].
      intros Hin. apply (Hfresh rid Hin). cbn. left.
    + rewrite app_nil_r. by apply single_use_PUT.
    + rewrite app_nil_r. by apply single_use_fire.
    + rewrite app_nil_r. by apply (single_use_same _ (run evs initial)).
    + rewrite app_nil_r. by apply (single_use_same _ (run evs initial)).
    + rewrite app_nil_r. by apply (single_use_same _ (run evs initial)).
Qed.

(** ** Register, deliver, time out *)

Lemma truthy_JStr rid : rid <> "" -> truthy (JStr rid) = true.
Proof.
  intros Hne. cbn. apply negb_true_iff. by apply String.eqb_neq.
Qed.

(** What [PUT] does with a screenshot submission. *)
Lemma PUT_submission b rid w :
  rid <> "" -> b_requestId b = JStr rid -> b_stepCompleted b = JUndefined ->
  PUT (Return b) w
  = match pendingScreenshots w !! rid with
    | Some _ => (json BOk, (deliver (JStr rid) (submitted b) w).2)
    | None => (json_status (BError "No pending request") 404, w)
    end.
Proof.
  intros Hne Hid Hstep. unfold PUT. rewrite Hid, Hstep, truthy_JStr by done.
  cbn [negb]. rewrite bool_decide_eq_true_2 by done. cbn [negb].
  unfold deliver. rewrite waiting_room_get_str.
  by destruct (pendingScreenshots w !! rid).
Qed.

Lemma deliver_unknown requestId payload w :
  waiting_room_get requestId w = None -> deliver requestId payload w = (false, w).
Proof. intros H. unfold deliver. by rewrite H. Qed.

Lemma deliver_known rid wt payload w :
  pendingScreenshots w !! rid = Some wt ->
  deliver (JStr rid) payload w
  = (true,
     {| pendingScreenshots := delete rid (pendingScreenshots w);
        timers := delete (timer wt) (timers w);
        now := now w;
        next_handle := next_handle w;
        log := Resolve rid (settle wt) payload
                 :: ClearTimeout (timer wt) :: MapDelete rid :: log w |}).
Proof. intros H. unfold deliver. rewrite waiting_room_get_str, H. done. Qed.

Lemma register_then_deliver rid t payload w :
  coherent w ->
  let h := (register rid t w).1 in
  let w1 := (register rid t w).2 in
  let w2 := (deliver (JStr rid) payload w1).2 in
  h = next_handle w
  /\ pendingScreenshots w1 !! rid = Some {| settle := h; timer := h |}
  /\ deliver (JStr rid) payload w1 = (true, w2)
  /\ log w2 = Resolve rid h payload :: ClearTimeout h :: MapDelete rid :: log w1
  /\ pendingScreenshots w2 !! rid = None
  /\ settlement h (log w2) = Some (Resolved payload).
Proof.
  intros Hc h w1 w2.
  assert (Hin : pendingScreenshots w1 !! rid = Some {| settle := h; timer := h |}).
  { subst w1 h. world_simpl. by rewrite lookup_insert_eq. }
  pose proof (deliver_known rid _ payload w1 Hin) as Hd.
  subst w2. rewrite Hd. cbn [snd log pendingScreenshots settle timer].
  repeat split; try done.
  - apply lookup_delete_eq.
  - apply settlement_resolve. subst w1 h. world_simpl.
    rewrite !settlement_skip by done. by apply (coh_fresh w Hc).
Qed.

(** A request id is stored only if it was in the room before or has been
    registered since. *)
Lemma stored_registered evs : forall w rid,
  is_Some (pendingScreenshots (run evs w) !! rid) ->
  is_Some (pendingScreenshots w !! rid) \/ rid ∈ registered_ids evs.
Proof.
  induction evs as [|e evs IH]; intros w rid Hs; [by left|].
  cbn [run fold_left] in Hs. apply IH in Hs as [Hs|Hs].
  - destruct e as [rid' t|req|tid|d|[s|r]]; cbn [step] in Hs.
    + world_simpl in Hs. destruct (decide (rid' = rid)) as [->|Hne].
      * right. cbn. left.
      * left. by rewrite lookup_insert_ne in Hs.
    + left. destruct (PUT_world req w) as [Heq|(b & rid0 & wt & _ & _ & _ & Heq)];
        rewrite Heq in Hs; [done|].
      cbn [pendingScreenshots] in Hs.
      destruct (decide (rid0 = rid)) as [->|Hne];
        [by rewrite lookup_delete_eq in Hs; destruct Hs
        |by rewrite lookup_delete_ne in Hs].
    + left. unfold fire in Hs. repeat (case_match; try done).
      cbn [pendingScreenshots] in Hs.
      match goal with Hs : is_Some (delete ?r _ !! rid) |- _ =>
        destruct (decide (r = rid)) as [<-|Hne];
          [by rewrite lookup_delete_eq in Hs; destruct Hs
          |by rewrite lookup_delete_ne in Hs] end.
    + by left.
    + by left.
    + by left.
  - right. destruct e; cbn; try done. by right.
Qed.

Lemma never_registered evs requestId :
  (forall s, requestId = JStr s -> s ∉ registered_ids evs) ->
  waiting_room_get requestId (run evs initial) = None.
Proof.
  intros Hnever. destruct requestId as [| | | |s]; try done.
  rewrite waiting_room_get_str.
  destruct (pendingScreenshots (run evs initial) !! s) as [wt|] eqn:E; [|done].
  destruct (stored_registered evs initial s) as [[? Hs]|Hs]; [by rewrite E| |].
  - unfold initial in Hs. cbn in Hs. by rewrite lookup_empty in Hs.
  - by destruct (Hnever s eq_refl).
Qed.

(** A quiet stretch keeps the timer of a live request and does not turn
    the clock back. *)
Lemma quiet_keeps_timer rid h tm mid : forall w,
  coherent w ->
  timers w !! h = Some tm -> request tm = rid ->
  Forall (quiet rid h) mid ->
  timers (run mid w) !! h = Some tm /\ now w <= now (run mid w).
Proof.
  induction mid as [|e mid IH]; intros w Hc Htm Hreq Hq; [split; [done|cbn; lia]|].
  apply Forall_cons in Hq as [He Hq]. cbn [run fold_left].
  assert (Hstep : timers (step w e) !! h = Some tm /\ now w <= now (step w e)).
  { destruct (coh_timer w Hc h tm Htm) as (_ & Hlt & _).
    destruct e as [rid' t|req|tid|d|[s|r]]; cbn [step quiet] in *.
    - world_simpl. split; [|lia]. rewrite lookup_insert_ne; [done|lia].
    - destruct (PUT_world req w) as [Heq|(b & rid0 & wt & -> & Hid & Hin & Heq)];
        rewrite Heq; [split; [done|lia]|].
      cbn [timers now]. split; [|lia].
      destruct (coh_waiter w Hc rid0 wt Hin) as [_ (tm0 & Htm0 & Hreq0)].
      rewrite lookup_delete_ne; [done|].
      intros Hsame. rewrite Hsame in Htm0. simplify_eq.
    - unfold fire. repeat (case_match; try (split; [done|lia])).
      cbn [timers now]. split; [|lia]. by rewrite lookup_delete_ne.
    - cbn [tick timers now]. split; [done|lia].
    - cbn. split; [done|lia].
    - cbn. split; [done|lia]. }
  destruct Hstep as [Htm' Hnow].
  destruct (IH (step w e) (coherent_step w e Hc) Htm' Hreq Hq) as [? ?].
  unfold run in *. split; [done|lia].
Qed.

Lemma resume_settled {A} h (k : Settlement -> Prog A) s w :
  settlement h (log w) = Some s -> resume (Waiting h k) w = start (k s) w.
Proof. intros Hs. cbn [resume]. by rewrite Hs. Qed.

(** C1. For every correlation id at most one request is live at any time
    and at most one settlement ever occurs.  A delivery removes the id from
    the waiting room before it calls the continuation: a registration
    followed by a delivery hands the awaiting caller exactly the payload,
    and a second delivery for the same id finds nothing, which [PUT]
    answers with 404. *)
Theorem registered_request_settled_once
    (A : Type) (k : Settlement -> Prog A)
    (evs : list Event) (rid : string) (timeoutMs : JsVal)
    (payload other : ScreenshotData) (b b' : PutBody) :
  NoDup (registered_ids evs) ->
  rid <> "" ->
  b_requestId b = JStr rid -> b_stepCompleted b = JUndefined ->
  b_requestId b' = JStr rid -> b_stepCompleted b' = JUndefined ->
  let w := run evs initial in
  let h := (register rid timeoutMs w).1 in
  let w1 := (register rid timeoutMs w).2 in
  let w2 := (deliver (JStr rid) payload w1).2 in
  (forall id, (settle_count id (log w) <= 1)%nat
              /\ forall h1 h2, live id h1 w -> live id h2 w -> h1 = h2)
  /\ deliver (JStr rid) payload w1 = (true, w2)
  /\ log w2 = Resolve rid h payload :: ClearTimeout h :: MapDelete rid :: log w1
  /\ pendingScreenshots w2 !! rid = None
  /\ resume (Waiting h k) w2 = start (k (Resolved payload)) w2
  /\ deliver (JStr rid) other w2 = (false, w2)
  /\ PUT (Return b) w1 = (json BOk, (deliver (JStr rid) (submitted b) w1).2)
  /\ PUT (Return b') w2 = (json_status (BError "No pending request") 404, w2).
Proof.
  intros Hnd Hne Hb Hbs Hb' Hbs' w h w1 w2.
  pose proof (coherent_run evs initial coherent_initial) as Hc.
  pose proof (single_use_run evs Hnd) as Hs.
  destruct (register_then_deliver rid timeoutMs payload w Hc)
    as (Hh & Hin & Hd & Hlog & Hgone & Hset).
  fold h w1 in Hin, Hd, Hlog, Hgone, Hset. fold w2 in Hd, Hlog, Hgone, Hset.
  split; [|repeat split]; try done.
  - intros id. split; [apply (su_once _ _ Hs)|apply (su_unique _ _ Hs)].
  - by apply resume_settled.
  - apply deliver_unknown. by rewrite waiting_room_get_str, Hgone.
  - rewrite (PUT_submission b rid w1) by done. by rewrite Hin.
  - rewrite (PUT_submission b' rid w2) by done. by rewrite Hgone.
Qed.

Lemma registered_request_settled_once_witness :
  let w1 := (register "req_a_1" (JNum 25000) initial).2 in
  let b := Sample.screenshot "req_a_1" "AAAA" in
  let w2 := (deliver (JStr "req_a_1") (submitted b) w1).2 in
  PUT (Return b) w2 = (json_status (BError "No pending request") 404, w2).
Proof.
  intros w1 b w2.
  refine (proj2 (proj2 (proj2 (proj2 (proj2 (proj2 (proj2
    (registered_request_settled_once unit (fun _ => Ret tt) [] "req_a_1" (JNum 25000)
       (submitted b) (submitted b) b b _ _ _ _ _ _)))))))).
  - apply NoDup_nil_2.
  - discriminate.
  - reflexivity.
  - reflexivity.
  - reflexivity.
  - reflexivity.
Defined.

(** C2, as stated, fails: the timer takes no delay above [TIMEOUT_MAX].
    A screenshot request made with [timeoutMs] 2147483648 is registered
    with a timer of one millisecond, and the caller observes the time-out
    error one millisecond after the registration, long before the timeout
    it asked for has passed. *)
Lemma timeout_above_timer_range_counterexample :
  let t := 2147483648 in
  let tc := {| tc_name := JStr "capture_screenshot";
               tc_id := JStr "call_1";
               tc_parameters := {| p_roomName := JUndefined;
                                   p_targetIdentity := JUndefined;
                                   p_question := JStr "What is this?";
                                   p_timeoutMs := JNum t;
                                   p_stepId := JUndefined |} |} in
  let p := handleCaptureScreenshot (Sample.env None) "req_a_1" tc (JStr "room-7")
             (Sample.message tc) in
  let s1 := start p initial in
  let s2 := sent (Return tt) s1.1 s1.2 in
  let w3 := fire 0 (run [EvTick 1] s2.2) in
  stored_ids (log s2.2) = ["req_a_1"]
  /\ timers s2.2 !! 0%nat = Some {| due := Some 1; request := "req_a_1"; promise := 0 |}
  /\ now s2.2 = 0
  /\ now w3 = 1
  /\ now w3 < now s2.2 + t
  /\ settlement 0 (log w3) = Some (Rejected "capture_screenshot timed out")
  /\ pendingScreenshots w3 !! "req_a_1" = None
  /\ (resume s2.1 w3).1 = Done (Throw "capture_screenshot timed out").
Proof. vm_compute. repeat split; reflexivity. Qed.

(** C2, amended.  A request registered with a timeout [t] of at most
    [TIMEOUT_MAX] (2^31 - 1 ms, the longest delay the timer takes) and not
    delivered is not timed out before [t] has passed; when its timer runs,
    the id leaves the waiting room and the awaiting caller observes the
    time-out error.  From then on, and for an id that was never registered,
    a delivery finds nothing and changes nothing, which [PUT] answers with
    404 and the error [No pending request]. *)
Theorem timeout_rejects_and_forgets
    (A : Type) (k : Settlement -> Prog A)
    (evs mid never : list Event) (rid : string) (t : Z) (b unknown : PutBody) :
  t <= TIMEOUT_MAX ->
  rid <> "" -> b_requestId b = JStr rid -> b_stepCompleted b = JUndefined ->
  truthy (b_requestId unknown) = true -> b_stepCompleted unknown = JUndefined ->
  (forall s, b_requestId unknown = JStr s -> s ∉ registered_ids never) ->
  let w := run evs initial in
  let h := (register rid (JNum t) w).1 in
  let w1 := (register rid (JNum t) w).2 in
  Forall (quiet rid h) mid ->
  let w2 := run mid w1 in
  let w3 := fire h w2 in
  (now w2 < now w1 + t -> w3 = w2)
  /\ (now w1 + Z.max 1 t <= now w2 ->
      log w3 = Reject rid h "capture_screenshot timed out" :: MapDelete rid :: log w2
      /\ now w1 + t <= now w3
      /\ pendingScreenshots w3 !! rid = None
      /\ resume (Waiting h k) w3 = start (k (Rejected "capture_screenshot timed out")) w3
      /\ (forall payload, deliver (JStr rid) payload w3 = (false, w3))
      /\ PUT (Return b) w3 = (json_status (BError "No pending request") 404, w3))
  /\ (forall payload,
        deliver (b_requestId unknown) payload (run never initial)
        = (false, run never initial))
  /\ PUT (Return unknown) (run never initial)
     = (json_status (BError "No pending request") 404, run never initial).
Proof.
  intros Ht Hne Hb Hbs Hu Hus Hnever w h w1 Hquiet w2 w3.
  pose proof (coherent_run evs initial coherent_initial) as Hc.
  pose proof (coherent_register rid (JNum t) w Hc) as Hc1. fold w1 in Hc1.
  set (tm := {| due := Some (now w + Z.max 1 t); request := rid; promise := h |}).
  assert (Htm1 : timers w1 !! h = Some tm).
  { subst w1 h tm. world_simpl. rewrite lookup_insert_eq. unfold timer_delay.
    cbn [Number fmap option_fmap option_map]. do 3 f_equal.
    destruct (1 <=? t) eqn:E1; destruct (t <=? TIMEOUT_MAX) eqn:E2; cbn [andb]; lia. }
  destruct (quiet_keeps_timer rid h tm mid w1 Hc1 Htm1 eq_refl Hquiet) as [Htm2 Hnow].
  fold w2 in Htm2, Hnow.
  pose proof (coherent_run mid w1 Hc1) as Hc2. fold w2 in Hc2.
  assert (Hnow1 : now w1 = now w) by done.
  split; [|split; [|split]].
  - intros Hearly. subst w3. unfold fire. rewrite Htm2.
    unfold timer_due. cbn [due tm].
    destruct (now w + Z.max 1 t <=? now w2) eqn:E; [lia|done].
  - intros Hdue.
    assert (Hfire : w3 =
      {| pendingScreenshots := delete rid (pendingScreenshots w2);
         timers := delete h (timers w2);
         now := now w2;
         next_handle := next_handle w2;
         log := Reject rid h "capture_screenshot timed out" :: MapDelete rid :: log w2 |}).
    { subst w3. unfold fire. rewrite Htm2. unfold timer_due. cbn [due request promise tm].
      destruct (now w + Z.max 1 t <=? now w2) eqn:E; [done|lia]. }
    assert (Hgone : pendingScreenshots w3 !! rid = None).
    { rewrite Hfire. cbn [pendingScreenshots]. apply lookup_delete_eq. }
    repeat split.
    + by rewrite Hfire.
    + rewrite Hfire. cbn [now]. lia.
    + done.
    + apply resume_settled. rewrite Hfire. cbn [log].
      apply settlement_reject. rewrite settlement_skip by done.
      by destruct (coh_timer w2 Hc2 h tm Htm2) as (_ & _ & ?).
    + intros payload. apply deliver_unknown. by rewrite waiting_room_get_str, Hgone.
    + rewrite (PUT_submission b rid w3) by done. by rewrite Hgone.
  - intros payload. apply deliver_unknown. by apply never_registered.
  - unfold PUT. rewrite Hu, Hus. cbn [negb]. rewrite bool_decide_eq_true_2 by done.
    cbn [negb]. rewrite deliver_unknown; [done|]. by apply never_registered.
Qed.

Lemma timeout_rejects_and_forgets_witness :
  let w1 := (register "req_a_1" (JNum 25000) initial).2 in
  let w2 := run [EvTick 10000; EvTick 15000] w1 in
  let w3 := fire 0 w2 in
  log w3 = [Reject "req_a_1" 0 "capture_screenshot timed out"; MapDelete "req_a_1";
            MapSet "req_a_1" 0; SetTimeout 0 (Some 25000)]
  /\ 25000 <= now w3
  /\ PUT (Return (Sample.screenshot "req_b_2" "AAAA")) initial
     = (json_status (BError "No pending request") 404, initial).
Proof.
  intros w1 w2 w3.
  pose proof (timeout_rejects_and_forgets unit (fun _ => Ret tt)
    [] [EvTick 10000; EvTick 15000] [] "req_a_1" 25000
    (Sample.screenshot "req_a_1" "AAAA") (Sample.screenshot "req_b_2" "AAAA")) as H.
  cbv zeta in H.
  destruct H as (_ & Hlate & _ & Hput).
  - unfold TIMEOUT_MAX. lia.
  - discriminate.
  - reflexivity.
  - reflexivity.
  - reflexivity.
  - reflexivity.
  - intros s _. apply not_elem_of_nil.
  - repeat constructor; exact I.
  - destruct Hlate as (Hlog & Hnow & _).
    + vm_compute. discriminate.
    + split; [exact Hlog|]. split; [exact Hnow|exact Hput].
Defined.

(** ** The data URL pattern *)

Lemma append_nil s : "" +:+ s = s.
Proof. reflexivity. Qed.

Lemma append_cons a s t : String a s +:+ t = String a (s +:+ t).
Proof. reflexivity. Qed.

Lemma strip_prefix_Some p s rest : strip_prefix p s = Some rest <-> s = p +:+ rest.
Proof.
  revert s. induction p as [|a p IH]; intros s;
    rewrite ?append_nil, ?append_cons; cbn -[Ascii.eqb].
  - split; [by intros [= ->]|by intros ->].
  - destruct s as [|b s]; [done|].
    destruct (Ascii.eqb a b) eqn:Hab.
    + apply Ascii.eqb_eq in Hab as ->. rewrite IH. split; [by intros ->|by intros [= ->]].
    + apply Ascii.eqb_neq in Hab. split; [done|]. intros [= ? ?]. done.
Qed.

Lemma break_at_spec c s l r :
  break_at c s = (l, r) ->
  s = l +:+ r /\ has_char c l = false /\ (r = "" \/ exists r', r = String c r').
Proof.
  revert l r. induction s as [|a s IH]; intros l r; cbn -[Ascii.eqb].
  - intros [= <- <-]. rewrite append_nil. auto.
  - destruct (Ascii.eqb a c) eqn:Hac.
    + apply Ascii.eqb_eq in Hac as ->. intros [= <- <-]. rewrite append_nil. eauto.
    + destruct (break_at c s) as [l' r'] eqn:Hb. intros [= <- <-].
      destruct (IH l' r' eq_refl) as (-> & Hl & Hr).
      rewrite append_cons. cbn -[Ascii.eqb]. by rewrite Hac.
Qed.

Lemma break_at_append c l r :
  has_char c l = false -> break_at c (l +:+ String c r) = (l, String c r).
Proof.
  induction l as [|a l IH]; rewrite ?append_nil, ?append_cons; cbn -[Ascii.eqb].
  - intros _. by rewrite Ascii.eqb_refl.
  - intros H. apply orb_false_iff in H as [Hac Hl]. by rewrite Hac, IH.
Qed.

Lemma match_data_url_sound s mime payload :
  match_data_url s = Some (mime, payload) ->
  s = "data:" +:+ mime +:+ ";base64," +:+ payload
  /\ mime <> "" /\ has_char ";" mime = false /\ no_line_terminator payload = true.
Proof.
  unfold match_data_url.
  destruct (strip_prefix "data:" s) as [rest|] eqn:Hp; [|done].
  apply strip_prefix_Some in Hp as ->.
  destruct (break_at ";" rest) as [m tail] eqn:Hb.
  apply break_at_spec in Hb as (-> & Hm & _).
  destruct (String.eqb m "") eqn:Hm0; [done|]. apply String.eqb_neq in Hm0.
  destruct (strip_prefix ";base64," tail) as [p|] eqn:Ht; [|done].
  apply strip_prefix_Some in Ht as ->.
  destruct (no_line_terminator p) eqn:Hl; [|done].
  by intros [= <- <-].
Qed.

Lemma match_data_url_complete mime payload :
  mime <> "" -> has_char ";" mime = false -> no_line_terminator payload = true ->
  match_data_url ("data:" +:+ mime +:+ ";base64," +:+ payload) = Some (mime, payload).
Proof.
  intros Hm0 Hm Hl. unfold match_data_url.
  replace (strip_prefix "data:" ("data:" +:+ mime +:+ ";base64," +:+ payload))
    with (Some (mime +:+ ";base64," +:+ payload)) by reflexivity.
  change (";base64," +:+ payload) with (String ";" ("base64," +:+ payload)).
  rewrite break_at_append by done.
  apply String.eqb_neq in Hm0. rewrite Hm0.
  change (strip_prefix ";base64," (String ";" ("base64," +:+ payload))) with (Some payload).
  cbv beta iota. by rewrite Hl.
Qed.


(** ** The adapter *)

Lemma answer_image env question data :
  truthy (imageBase64 data) = true ->
  answer env question data
  = if negb (env_truthy (OPENAI_API_KEY env)) then
      Ret (JStr ("Mock vision answer to: "
                 +:+ ToString (or (or question (sd_question data)) (JStr "What do you see?"))))
    else
      match normalize (imageBase64 data) with
      | Throw msg => Raise msg
      | Return dataUrl =>
          await_fetch
            {| fr_bearer := default "" (OPENAI_API_KEY env);
               fr_text := or (or question (sd_question data)) (JStr "What do you see?");
               fr_image_url := dataUrl |}
            (fun openaiRes =>
               if negb (res_ok openaiRes) then
                 Raise ("Vision LLM error: " +:+ res_text openaiRes)
               else Ret (extract_answer openaiRes))
      end.
Proof. intros Hi. unfold answer. by rewrite Hi. Qed.



Lemma normalize_toString buf :
  buf <> [] ->
  normalize (JStr (Base64.toString buf))
  = Return ("data:image/jpeg;base64," +:+ Base64.toString buf).
Proof.
  intros Hne. unfold normalize.
  rewrite (Base64Facts.startsWith_data_plain _ (Base64Facts.toString_plain buf)).
  rewrite (Base64Facts.strip_whitespace_plain _ (Base64Facts.toString_plain buf)).
  rewrite Base64Facts.from_toString.
  destruct buf; [done|]. reflexivity.
Qed.

(** ** The handlers *)

Section Handlers.
Variables (env : Env) (rid : string) (toolCall : ToolCall) (callId : JsVal)
          (message : CallMessage).

Let question := p_question (tc_parameters toolCall).
Let stepId := p_stepId (tc_parameters toolCall).

Lemma handleCaptureScreenshot_missing :
  missing_field CaptureScreenshotTool toolCall message ->
  handleCaptureScreenshot env rid toolCall callId message
  = Raise (required_message CaptureScreenshotTool).
Proof.
  unfold missing_field, handleCaptureScreenshot, resolved_room, resolved_target.
  intros [H|[H|H]]; rewrite H; cbn [negb orb]; by rewrite ?orb_true_r.
Qed.

Lemma handleMarkStepComplete_missing :
  missing_field MarkStepCompleteTool toolCall message ->
  handleMarkStepComplete env rid toolCall callId message
  = Raise (required_message MarkStepCompleteTool).
Proof.
  unfold missing_field, handleMarkStepComplete, resolved_room, resolved_target.
  intros [H|[H|H]]; rewrite H; cbn [negb orb]; by rewrite ?orb_true_r.
Qed.

Lemma handleCaptureScreenshot_valid host :
  truthy (resolved_room toolCall message) = true ->
  truthy question = true ->
  truthy (resolved_target toolCall message) = true ->
  roomService env = Return host ->
  handleCaptureScreenshot env rid toolCall callId message
  = await_sendData (command host toolCall message (capture_screenshot question rid))
      (await_screenshot rid (effective_timeout toolCall)
         (fun screenshotData => answer env question screenshotData)).
Proof.
  unfold handleCaptureScreenshot, resolved_room, resolved_target, question.
  intros -> -> -> ->. reflexivity.
Qed.

Lemma handleMarkStepComplete_valid host :
  truthy (resolved_room toolCall message) = true ->
  truthy (resolved_target toolCall message) = true ->
  stepId <> JUndefined ->
  roomService env = Return host ->
  handleMarkStepComplete env rid toolCall callId message
  = await_sendData
      (command host toolCall message (mark_step_complete (Number stepId) rid))
      (Ret (JStr ("Step " +:+ ToString stepId +:+ " marked complete"))).
Proof.
  unfold handleMarkStepComplete, resolved_room, resolved_target, stepId.
  intros -> -> Hs ->. rewrite bool_decide_eq_false_2 by done. reflexivity.
Qed.

(** A screenshot request that is answered by one submission: the handler
    continues with the submitted object in the world after the delivery. *)
Lemma play_capture host sc b w :
  coherent w ->
  truthy (resolved_room toolCall message) = true ->
  truthy question = true ->
  truthy (resolved_target toolCall message) = true ->
  roomService env = Return host ->
  rid <> "" -> b_requestId b = JStr rid -> b_stepCompleted b = JUndefined ->
  sends sc = Return tt -> puts sc = [b] ->
  let cmd := command host toolCall message (capture_screenshot question rid) in
  let w2 := (register rid (effective_timeout toolCall) (log_effect (SentData cmd) w)).2 in
  let w3 := (deliver (JStr rid) (submitted b) w2).2 in
  play sc (handleCaptureScreenshot env rid toolCall callId message) w
  = fetched (fetches sc) (start (answer env question (submitted b)) w3).1
                         (start (answer env question (submitted b)) w3).2.
Proof.
  intros Hc Hr Hq Ht Hrs Hne Hb Hbs Hsend Hputs cmd w2 w3.
  rewrite (handleCaptureScreenshot_valid host Hr Hq Ht Hrs). fold cmd.
  assert (Hc1 : coherent (log_effect (SentData cmd) w)) by by apply coherent_log_effect.
  destruct (register_then_deliver rid (effective_timeout toolCall) (submitted b) _ Hc1)
    as (Hh & Hin & Hd & Hlog & Hgone & Hset).
  fold w2 in Hin, Hd, Hlog, Hgone, Hset. fold w3 in Hd, Hlog, Hgone, Hset.
  unfold play. rewrite Hsend, Hputs.
  cbn [start await_sendData sent await_screenshot].
  destruct (register rid (effective_timeout toolCall) (log_effect (SentData cmd) w))
    as [h w2'] eqn:Hreg.
  cbn [fst snd] in *. subst w2 w3. cbn [fold_left].
  rewrite (PUT_submission b rid _ Hne Hb Hbs), Hin. cbn [snd resume].
  apply (f_equal fst) in Hreg. cbn in Hreg. subst h.
  change (next_handle (log_effect (SentData cmd) w)) with (next_handle w) in Hset.
  rewrite Hset.
  by destruct (start (answer env question (submitted b)) _).
Qed.
End Handlers.

(** ** Order of sending and registering *)

(** C3, as stated, fails: when the command of a screenshot request has been
    sent, the waiting room does not hold the request id yet. *)
Lemma capture_registered_before_sent_counterexample :
  let tc := Sample.toolCall "capture_screenshot" (JStr "What is this?") JUndefined in
  let p := handleCaptureScreenshot (Sample.env None) "req_a_1" tc (JStr "room-7")
             (Sample.message tc) in
  let w1 := (start p initial).2 in
  let w := (play (Sample.script [Sample.screenshot "req_a_1" "AAAA"]) p initial).2 in
  sent_commands (log w1)
  = [command "https://rooms.example" tc (Sample.message tc)
       (capture_screenshot (JStr "What is this?") "req_a_1")]
  /\ pendingScreenshots w1 !! "req_a_1" = None
  /\ registered_when_sent "req_a_1" (log w) = false.
Proof. vm_compute. done. Qed.

(** C3, amended.  A screenshot request that passes validation first sends
    the command that carries the generated id, with the waiting room
    untouched; only when the transport has completed the send is the waiter
    registered under that id, and when the send fails nothing is
    registered. *)
Theorem capture_sends_then_registers
    (env : Env) (rid : string) (toolCall : ToolCall) (callId : JsVal)
    (message : CallMessage) (host : string) (w : World) :
  truthy (resolved_room toolCall message) = true ->
  truthy (p_question (tc_parameters toolCall)) = true ->
  truthy (resolved_target toolCall message) = true ->
  roomService env = Return host ->
  let cmd := command host toolCall message
               (capture_screenshot (p_question (tc_parameters toolCall)) rid) in
  let p := handleCaptureScreenshot env rid toolCall callId message in
  let t1 := (start p w).1 in
  let w1 := (start p w).2 in
  let t2 := (sent (Return tt) t1 w1).1 in
  let w2 := (sent (Return tt) t1 w1).2 in
  let h := next_handle w in
  w1 = log_effect (SentData cmd) w
  /\ pendingScreenshots w1 = pendingScreenshots w
  /\ (forall msg, sent (Throw msg) t1 w1 = (Done (Throw msg), w1))
  /\ w2 = (register rid (effective_timeout toolCall) w1).2
  /\ log w2 = MapSet rid h :: SetTimeout h (timer_delay (effective_timeout toolCall))
                :: SentData cmd :: log w
  /\ pendingScreenshots w2 !! rid = Some {| settle := h; timer := h |}
  /\ exists k, t2 = Waiting h k.
Proof.
  intros Hr Hq Ht Hrs cmd p t1 w1 t2 w2 h.
  subst t2 w2 t1 w1 p.
  rewrite (handleCaptureScreenshot_valid env rid toolCall callId message host Hr Hq Ht Hrs).
  fold cmd. cbn [start await_sendData await_screenshot sent fst snd register].
  repeat split; try done.
  - cbn [pendingScreenshots log_effect]. apply lookup_insert_eq.
  - by eexists.
Qed.

Lemma capture_sends_then_registers_witness :
  let tc := Sample.toolCall "capture_screenshot" (JStr "What is this?") JUndefined in
  let p := handleCaptureScreenshot (Sample.env None) "req_a_1" tc (JStr "room-7")
             (Sample.message tc) in
  log (sent (Return tt) (start p initial).1 (start p initial).2).2
  = [MapSet "req_a_1" 0; SetTimeout 0 (Some 25000);
     SentData (command "https://rooms.example" tc (Sample.message tc)
                 (capture_screenshot (JStr "What is this?") "req_a_1"))].
Proof.
  intros tc p.
  refine (proj1 (proj2 (proj2 (proj2 (proj2
    (capture_sends_then_registers (Sample.env None) "req_a_1" tc (JStr "room-7")
       (Sample.message tc) "https://rooms.example" initial _ _ _ _)))))); reflexivity.
Defined.

(** A submission that arrives after the command was sent and before the
    send has completed finds no waiter. *)
Lemma submission_before_registration_is_refused :
  let tc := Sample.toolCall "capture_screenshot" (JStr "What is this?") JUndefined in
  let p := handleCaptureScreenshot (Sample.env None) "req_a_1" tc (JStr "room-7")
             (Sample.message tc) in
  let w1 := (start p initial).2 in
  PUT (Return (Sample.screenshot "req_a_1" "AAAA")) w1
  = (json_status (BError "No pending request") 404, w1).
Proof. reflexivity. Qed.

(** ** The router *)

Lemma POST_tool_call env rid message toolCall :
  msg_type message = JStr "tool-call-attempt" ->
  msg_tool_call message = Some toolCall ->
  POST env rid (Return (Some message))
  = match classify (tc_name toolCall) with
    | Some CaptureScreenshotTool =>
        try_catch
          (handleCaptureScreenshot env rid toolCall
             (or (call_context_id message) (JStr "unknown")) message)
          (tool_response toolCall)
    | Some MarkStepCompleteTool =>
        try_catch
          (handleMarkStepComplete env rid toolCall
             (or (call_context_id message) (JStr "unknown")) message)
          (tool_response toolCall)
    | None =>
        Ret (json_status (BError ("Unknown tool: " +:+ ToString (tc_name toolCall))) 400)
    end.
Proof.
  intros Hty Htc. unfold POST. rewrite Hty, Htc.
  by rewrite bool_decide_eq_true_2.
Qed.

(** C4, as stated, fails: a screenshot request without a question is
    answered with status 500, not 400. *)
Lemma missing_field_status_counterexample :
  let tc := Sample.toolCall "capture_screenshot" JUndefined JUndefined in
  let t := (start (POST (Sample.env None) "req_a_1" (Return (Some (Sample.message tc))))
              initial).1 in
  missing_field CaptureScreenshotTool tc (Sample.message tc)
  /\ exists r, t = Done (Return r) /\ status r = 500 /\ status r <> 400.
Proof.
  intros tc t. split.
  - right. left. reflexivity.
  - eexists. split; [reflexivity|]. split; [reflexivity|discriminate].
Qed.

(** C4, amended.  A tool invocation in which a required field is still
    absent after the fallback to the call context fails with the handler's
    error, which the router answers with status 500 and the error text
    [Tool execution failed: ...]; nothing is sent. *)
Theorem missing_field_fails_with_500
    (env : Env) (rid : string) (message : CallMessage) (toolCall : ToolCall)
    (tool : Tool) (sc : Script) (w : World) :
  msg_type message = JStr "tool-call-attempt" ->
  msg_tool_call message = Some toolCall ->
  classify (tc_name toolCall) = Some tool ->
  missing_field tool toolCall message ->
  play sc (POST env rid (Return (Some message))) w
  = (Done (Return (json_status
                     (BToolError ("Tool execution failed: " +:+ required_message tool)
                        (tc_name toolCall) (tc_id toolCall)) 500)), w).
Proof.
  intros Hty Htc Hcl Hmiss. rewrite (POST_tool_call env rid message toolCall Hty Htc), Hcl.
  destruct tool.
  - by rewrite handleCaptureScreenshot_missing.
  - by rewrite handleMarkStepComplete_missing.
Qed.

Lemma missing_field_fails_with_500_witness :
  let tc := Sample.toolCall "markStepComplete" JUndefined JUndefined in
  play (Sample.script []) (POST (Sample.env None) "req_a_1" (Return (Some (Sample.message tc))))
    initial
  = (Done (Return (json_status
       (BToolError
          "Tool execution failed: roomName, targetIdentity, and stepId are required for markStepComplete"
          (JStr "markStepComplete") (JStr "call_1")) 500)), initial).
Proof.
  intros tc.
  refine (missing_field_fails_with_500 (Sample.env None) "req_a_1" (Sample.message tc) tc
            MarkStepCompleteTool (Sample.script []) initial _ _ _ _).
  - reflexivity.
  - reflexivity.
  - reflexivity.
  - right. right. reflexivity.
Defined.

(** C9.  A tool invocation whose tool name is none of [captureScreenshot],
    [capture_screenshot] and [markStepComplete] is answered with status 400
    and the error [Unknown tool: <name>]; the world, and with it the log of
    commands sent, is left as it was. *)
Theorem unknown_tool_rejected
    (env : Env) (rid : string) (message : CallMessage) (toolCall : ToolCall)
    (sc : Script) (w : World) :
  msg_type message = JStr "tool-call-attempt" ->
  msg_tool_call message = Some toolCall ->
  tc_name toolCall <> JStr "captureScreenshot" ->
  tc_name toolCall <> JStr "capture_screenshot" ->
  tc_name toolCall <> JStr "markStepComplete" ->
  play sc (POST env rid (Return (Some message))) w
  = (Done (Return (json_status
                     (BError ("Unknown tool: " +:+ ToString (tc_name toolCall))) 400)), w).
Proof.
  intros Hty Htc H1 H2 H3. rewrite (POST_tool_call env rid message toolCall Hty Htc).
  unfold classify. by rewrite !bool_decide_eq_false_2.
Qed.

Lemma unknown_tool_rejected_witness :
  let tc := Sample.toolCall "doSomethingElse" JUndefined JUndefined in
  play (Sample.script []) (POST (Sample.env None) "req_a_1" (Return (Some (Sample.message tc))))
    initial
  = (Done (Return (json_status (BError "Unknown tool: doSomethingElse") 400)), initial).
Proof.
  intros tc.
  refine (unknown_tool_rejected (Sample.env None) "req_a_1" (Sample.message tc) tc
            (Sample.script []) initial _ _ _ _ _);
    first [reflexivity | discriminate].
Defined.

(** C8.  A valid [markStepComplete] invocation with step [s] sends exactly
    one command, [mark_step_complete] with step [s] and the generated id,
    to the one resolved participant, returns a string as soon as the send
    has completed, and stores no waiter.  For a safe integer [s] the string
    is [Step s marked complete] with [s] in decimal. *)
Theorem mark_step_complete_sends_once
    (env : Env) (rid : string) (toolCall : ToolCall) (callId : JsVal)
    (message : CallMessage) (host : string) (s : Z) (sc : Script) (w : World) :
  p_stepId (tc_parameters toolCall) = JNum s ->
  truthy (resolved_room toolCall message) = true ->
  truthy (resolved_target toolCall message) = true ->
  roomService env = Return host ->
  sends sc = Return tt ->
  let cmd :=
    {| sd_host := host;
       sd_room := resolved_room toolCall message;
       sd_data := mark_step_complete (Int s) rid;
       sd_kind := 1;
       sd_destinationIdentities := [resolved_target toolCall message] |} in
  let w' := (play sc (handleMarkStepComplete env rid toolCall callId message) w).2 in
  (exists text,
      play sc (handleMarkStepComplete env rid toolCall callId message) w
      = (Done (Return (JStr text)), w')
      /\ (safe_integer s = true -> text = "Step " +:+ pretty s +:+ " marked complete"))
  /\ log w' = SentData cmd :: log w
  /\ sent_commands (log w') = sent_commands (log w) ++ [cmd]
  /\ stored_ids (log w') = stored_ids (log w)
  /\ pendingScreenshots w' = pendingScreenshots w
  /\ timers w' = timers w.
Proof.
  intros Hs Hr Ht Hrs Hsend cmd w'. subst w'.
  assert (Hdef : p_stepId (tc_parameters toolCall) <> JUndefined) by by rewrite Hs.
  rewrite (handleMarkStepComplete_valid env rid toolCall callId message host Hr Ht Hdef Hrs).
  rewrite Hs. unfold play. rewrite Hsend.
  cbn [start await_sendData sent resume fetched fst snd Number].
  split; [|repeat split; done].
  exists ("Step " +:+ ToString (JNum s) +:+ " marked complete"). split; [done|].
  intros _. reflexivity.
Qed.

Lemma mark_step_complete_sends_once_witness :
  let tc := Sample.toolCall "markStepComplete" JUndefined (JNum 2) in
  let w' :=
    log_effect
      (SentData
         {| sd_host := "https://rooms.example";
            sd_room := JStr "room-7";
            sd_data := mark_step_complete (Int 2) "req_a_1";
            sd_kind := 1;
            sd_destinationIdentities := [JStr "web-ab12"] |}) initial in
  exists text,
    play (Sample.script []) (handleMarkStepComplete (Sample.env None) "req_a_1" tc
                               (JStr "room-7") (Sample.message tc)) initial
    = (Done (Return (JStr text)), w')
    /\ text = "Step 2 marked complete".
Proof.
  intros tc w'.
  destruct (proj1 (mark_step_complete_sends_once (Sample.env None) "req_a_1" tc
                     (JStr "room-7") (Sample.message tc) "https://rooms.example" 2
                     (Sample.script []) initial eq_refl eq_refl eq_refl eq_refl eq_refl))
    as (text & Hplay & Htext).
  exists text. split; [exact Hplay|]. apply Htext. reflexivity.
Defined.

(** ** The adapter after a delivery *)




Lemma start_Ret {A} (a : A) w : start (Ret a) w = (Done (Return a), w).
Proof. reflexivity. Qed.

Lemma answer_without_credential env q data :
  env_truthy (OPENAI_API_KEY env) = false -> q <> "" ->
  answer env (JStr q) data
  = Ret (if negb (truthy (imageBase64 data)) && truthy (legacyAnswer data)
         then legacyAnswer data
         else JStr ("Mock vision answer to: " +:+ q)).
Proof.
  intros Hkey Hq. unfold answer. rewrite Hkey. cbn [negb].
  unfold or. rewrite (truthy_JStr q Hq). cbv iota. rewrite (truthy_JStr q Hq).
  by destruct (negb (truthy (imageBase64 data)) && truthy (legacyAnswer data)).
Qed.

(** C6, as stated, fails: with no inference credential a delivered legacy
    answer is returned instead of the mock string. *)
Lemma mock_answer_counterexample :
  let tc := Sample.toolCall "capture_screenshot" (JStr "What is this?") JUndefined in
  (play (Sample.script [Sample.legacy "req_a_1" "a cat"])
     (handleCaptureScreenshot (Sample.env None) "req_a_1" tc (JStr "room-7")
        (Sample.message tc)) initial).1
  = Done (Return (JStr "a cat"))
  /\ JStr "a cat" <> JStr ("Mock vision answer to: " +:+ "What is this?").
Proof. split; [reflexivity|discriminate]. Qed.

(** C6, amended.  With no inference credential, a screenshot request with
    the non-empty question [q] whose result is delivered returns exactly
    [Mock vision answer to: q], unless the delivered result has no image
    and a non-empty answer, which is then returned as it is. *)
Theorem mock_answer_without_credential
    (env : Env) (rid : string) (toolCall : ToolCall) (callId : JsVal)
    (message : CallMessage) (host q : string) (evs : list Event)
    (sc : Script) (b : PutBody) :
  env_truthy (OPENAI_API_KEY env) = false ->
  p_question (tc_parameters toolCall) = JStr q -> q <> "" ->
  truthy (resolved_room toolCall message) = true ->
  truthy (resolved_target toolCall message) = true ->
  roomService env = Return host ->
  rid <> "" -> b_requestId b = JStr rid -> b_stepCompleted b = JUndefined ->
  sends sc = Return tt -> puts sc = [b] ->
  (play sc (handleCaptureScreenshot env rid toolCall callId message) (run evs initial)).1
  = Done (Return (if negb (truthy (b_imageBase64 b)) && truthy (b_answer b)
                  then b_answer b
                  else JStr ("Mock vision answer to: " +:+ q))).
Proof.
  intros Hkey Hq Hq0 Hr Ht Hrs Hne Hb Hbs Hsend Hputs.
  pose proof (coherent_run evs initial coherent_initial) as Hc.
  assert (Hqt : truthy (p_question (tc_parameters toolCall)) = true)
    by (rewrite Hq; by apply truthy_JStr).
  rewrite (play_capture env rid toolCall callId message host sc b _
             Hc Hr Hqt Ht Hrs Hne Hb Hbs Hsend Hputs).
  rewrite Hq, (answer_without_credential env q _ Hkey Hq0).
  rewrite start_Ret. cbn [fetched fst snd]. do 2 f_equal.
  unfold submitted.
  destruct (truthy (b_imageBase64 b)) eqn:Hi; cbn [imageBase64 legacyAnswer].
  - by rewrite Hi.
  - change (truthy (JStr "")) with false. cbn [negb andb]. unfold or.
    by destruct (truthy (b_answer b)) eqn:Ha; [rewrite Ha|].
Qed.

Lemma mock_answer_without_credential_witness :
  let tc := Sample.toolCall "capture_screenshot" (JStr "What is this?") JUndefined in
  (play (Sample.script [Sample.screenshot "req_a_1" "AAAA"])
     (handleCaptureScreenshot (Sample.env None) "req_a_1" tc (JStr "room-7")
        (Sample.message tc)) (run [] initial)).1
  = Done (Return (JStr "Mock vision answer to: What is this?")).
Proof.
  intros tc.
  refine (mock_answer_without_credential (Sample.env None) "req_a_1" tc (JStr "room-7")
            (Sample.message tc) "https://rooms.example" "What is this?" []
            (Sample.script [Sample.screenshot "req_a_1" "AAAA"])
            (Sample.screenshot "req_a_1" "AAAA") _ _ _ _ _ _ _ _ _ _ _);
    first [reflexivity | discriminate].
Defined.

(** C7.  For a non-empty buffer, the normalisation of its base64 encoding
    builds a data URL whose payload decodes to the buffer. *)
Theorem canonicalization_round_trip (buf : Base64.Buffer) :
  buf <> [] ->
  exists payload,
    normalize (JStr (Base64.toString buf)) = Return ("data:image/jpeg;base64," +:+ payload)
    /\ Base64.from payload = buf.
Proof.
  intros Hne. exists (Base64.toString buf). split.
  - by apply normalize_toString.
  - apply Base64Facts.from_toString.
Qed.

Lemma canonicalization_round_trip_witness :
  exists payload,
    normalize (JStr (Base64.toString [x4d; x61; x6e; x21]))
    = Return ("data:image/jpeg;base64," +:+ payload)
    /\ Base64.from payload = [x4d; x61; x6e; x21].
Proof.
  apply (canonicalization_round_trip [x4d; x61; x6e; x21]). discriminate.
Defined.



(** * Further properties *)

(** ** More on the waiting room *)

Lemma handle_settle_count_cons h e l :
  handle_settle_count h (e :: l)
  = ((if settles h e then 1 else 0) + handle_settle_count h l)%nat.
Proof.
  unfold handle_settle_count. rewrite filter_cons.
  destruct (settles h e); case_decide; done.
Qed.

Lemma settlement_None_count h l :
  settlement h l = None -> handle_settle_count h l = 0%nat.
Proof.
  induction l as [|e l IH]; [done|]. cbn [settlement].
  destruct (settlement h l); [done|]. intros He.
  rewrite handle_settle_count_cons, IH by done.
  destruct e; try done; cbn [settles]; case_decide; try done;
    by rewrite bool_decide_eq_false_2.
Qed.

(** Every step of the process settles at most one promise, and only one
    that is not settled yet. *)
Lemma step_settles_once w e h :
  coherent w ->
  (handle_settle_count h (log w) <= 1)%nat ->
  (handle_settle_count h (log (step w e)) <= 1)%nat.
Proof.
  intros Hc Hle. destruct e as [rid t|req|tid|d|[s|r]]; cbn [step].
  - world_simpl. by rewrite !handle_settle_count_cons.
  - destruct (PUT_world req w) as [Heq|(b & rid & wt & _ & _ & Hin & Heq)];
      rewrite Heq; [done|]. cbn [log].
    rewrite !handle_settle_count_cons. cbn [settles].
    destruct (coh_waiter w Hc rid wt Hin) as [Hst (tm & Htm & _)].
    destruct (coh_timer w Hc _ _ Htm) as (_ & _ & Hnone).
    case_bool_decide as Hh; [|by cbn].
    rewrite Hst in Hh. subst h. by rewrite (settlement_None_count _ _ Hnone).
  - unfold fire. destruct (timers w !! tid) as [tm|] eqn:Htm; [|done].
    destruct (timer_due tm (now w)); [|done]. cbn [log].
    rewrite !handle_settle_count_cons. cbn [settles].
    destruct (coh_timer w Hc _ _ Htm) as (Hp & _ & Hnone).
    case_bool_decide as Hh; [|by cbn].
    rewrite Hp in Hh. subst h. by rewrite (settlement_None_count _ _ Hnone).
  - done.
  - cbn [log_effect log]. by rewrite handle_settle_count_cons.
  - cbn [log_effect log]. by rewrite handle_settle_count_cons.
Qed.

(** X1.  Whatever the events, and also when request ids repeat, the
    [resolve] or [reject] of one promise is called at most once. *)
Theorem promise_settled_at_most_once (evs : list Event) (h : nat) :
  (handle_settle_count h (log (run evs initial)) <= 1)%nat.
Proof.
  induction evs as [|e evs IH] using rev_ind.
  - cbn. lia.
  - rewrite run_app. cbn [run fold_left].
    apply step_settles_once; [|done]. apply coherent_run, coherent_initial.
Qed.

(** The log only grows, and a timer that is gone does not come back. *)
Lemma step_log_grows w e : exists l, log (step w e) = l ++ log w.
Proof.
  destruct e as [rid t|req|tid|d|[s|r]]; cbn [step].
  - by exists [MapSet rid (next_handle w); SetTimeout (next_handle w) (timer_delay t)].
  - destruct (PUT_world req w) as [Heq|(b & rid & wt & _ & _ & Hin & Heq)]; rewrite Heq.
    + by exists [].
    + by eexists [_; _; _].
  - unfold fire. destruct (timers w !! tid) as [tm|]; [|by exists []].
    destruct (timer_due tm (now w)); [|by exists []]. by eexists [_; _].
  - by exists [].
  - by eexists [_].
  - by eexists [_].
Qed.

Lemma settlement_keeps_app h l l' s :
  settlement h l = Some s -> settlement h (l' ++ l) = Some s.
Proof.
  intros Hs. induction l' as [|e l' IH]; [done|].
  cbn [app]. by apply settlement_keeps.
Qed.

Lemma run_keeps_settlement evs : forall w h s,
  settlement h (log w) = Some s -> settlement h (log (run evs w)) = Some s.
Proof.
  induction evs as [|e evs IH]; intros w h s Hs; [done|].
  cbn [run fold_left]. apply IH.
  destruct (step_log_grows w e) as [l ->]. by apply settlement_keeps_app.
Qed.

Lemma step_timer_gone w e h :
  timers w !! h = None -> (h < next_handle w)%nat ->
  timers (step w e) !! h = None /\ (h < next_handle (step w e))%nat.
Proof.
  intros Hnone Hlt. destruct e as [rid t|req|tid|d|[s|r]]; cbn [step].
  - world_simpl. split; [|lia]. rewrite lookup_insert_ne; [done|lia].
  - destruct (PUT_world req w) as [Heq|(b & rid & wt & _ & _ & Hin & Heq)];
      rewrite Heq; [done|]. cbn [timers next_handle]. split; [|done].
    rewrite lookup_delete_None. by right.
  - unfold fire. destruct (timers w !! tid) as [tm|]; [|done].
    destruct (timer_due tm (now w)); [|done]. cbn [timers next_handle]. split; [|done].
    rewrite lookup_delete_None. by right.
  - done.
  - done.
  - done.
Qed.

Lemma run_timer_gone evs : forall w h,
  timers w !! h = None -> (h < next_handle w)%nat ->
  timers (run evs w) !! h = None.
Proof.
  induction evs as [|e evs IH]; intros w h Hnone Hlt; [done|].
  cbn [run fold_left]. destruct (step_timer_gone w e h Hnone Hlt) as [? ?].
  by apply IH.
Qed.

(** X2.  A request whose result has been delivered can never time out
    afterwards: whatever happens later, the callback of its timer does
    nothing and the awaiting caller still gets the delivered payload. *)
Theorem delivered_request_never_times_out
    (A : Type) (k : Settlement -> Prog A)
    (evs later : list Event) (rid : string) (timeoutMs : JsVal) (payload : ScreenshotData) :
  let w := run evs initial in
  let h := (register rid timeoutMs w).1 in
  let w2 := (deliver (JStr rid) payload (register rid timeoutMs w).2).2 in
  let w3 := run later w2 in
  fire h w3 = w3
  /\ resume (Waiting h k) w3 = start (k (Resolved payload)) w3.
Proof.
  intros w h w2 w3.
  pose proof (coherent_run evs initial coherent_initial) as Hc. fold w in Hc.
  destruct (register_then_deliver rid timeoutMs payload w Hc)
    as (Hh & Hin & Hd & Hlog & Hgone & Hset).
  fold h w2 in Hh, Hin, Hd, Hlog, Hgone, Hset.
  assert (Hnone : timers w2 !! h = None).
  { subst w2. rewrite (deliver_known rid _ payload _ Hin). cbn [snd timers timer].
    apply lookup_delete_eq. }
  assert (Hlt : (h < next_handle w2)%nat).
  { subst w2. rewrite (deliver_known rid _ payload _ Hin). cbn [snd next_handle].
    world_simpl. lia. }
  split.
  - unfold fire. subst w3. by rewrite (run_timer_gone later w2 h Hnone Hlt).
  - apply resume_settled. subst w3. by apply run_keeps_settlement.
Qed.

(** X3.  Two pending requests with different ids do not interfere: in
    whichever order their results are delivered, each awaiting caller gets
    the payload delivered under its own id. *)
Theorem independent_requests
    (evs : list Event) (rid1 rid2 : string) (t1 t2 : JsVal) (p1 p2 : ScreenshotData) :
  rid1 <> rid2 ->
  let w := run evs initial in
  let h1 := (register rid1 t1 w).1 in
  let w1 := (register rid1 t1 w).2 in
  let h2 := (register rid2 t2 w1).1 in
  let w2 := (register rid2 t2 w1).2 in
  let a := (deliver (JStr rid1) p1 (deliver (JStr rid2) p2 w2).2).2 in
  let b := (deliver (JStr rid2) p2 (deliver (JStr rid1) p1 w2).2).2 in
  h1 <> h2
  /\ settlement h1 (log a) = Some (Resolved p1)
  /\ settlement h2 (log a) = Some (Resolved p2)
  /\ settlement h1 (log b) = Some (Resolved p1)
  /\ settlement h2 (log b) = Some (Resolved p2).
Proof.
  intros Hne w h1 w1 h2 w2 a b.
  pose proof (coherent_run evs initial coherent_initial) as Hc. fold w in Hc.
  assert (H1 : pendingScreenshots w2 !! rid1 = Some {| settle := h1; timer := h1 |}).
  { subst w2 w1 h1. world_simpl. rewrite lookup_insert_ne by done.
    by rewrite lookup_insert_eq. }
  assert (H2 : pendingScreenshots w2 !! rid2 = Some {| settle := h2; timer := h2 |}).
  { subst w2 h2. world_simpl. by rewrite lookup_insert_eq. }
  assert (Hh : h1 <> h2) by (subst h2 w1 h1; world_simpl; lia).
  assert (Hn1 : settlement h1 (log w2) = None).
  { subst w2 w1 h1. world_simpl. rewrite !settlement_skip by done.
    by apply (coh_fresh w Hc). }
  assert (Hn2 : settlement h2 (log w2) = None).
  { subst w2 h2 w1. world_simpl. rewrite !settlement_skip by done.
    apply (coh_fresh w Hc). lia. }
  split; [done|].
  subst a b.
  rewrite (deliver_known rid2 _ p2 w2 H2), (deliver_known rid1 _ p1 w2 H1).
  cbn [snd].
  rewrite (deliver_known rid1 {| settle := h1; timer := h1 |} p1)
    by (cbn [pendingScreenshots]; by rewrite lookup_delete_ne).
  rewrite (deliver_known rid2 {| settle := h2; timer := h2 |} p2)
    by (cbn [pendingScreenshots]; by rewrite lookup_delete_ne).
  cbn [snd log settle timer].
  repeat split.
  - apply settlement_resolve. rewrite !settlement_skip; try done.
    cbn [settles]. by apply bool_decide_eq_false_2.
  - rewrite !settlement_skip by first [done | cbn [settles]; by apply bool_decide_eq_false_2].
    by apply settlement_resolve; rewrite !settlement_skip.
  - rewrite !settlement_skip by first [done | cbn [settles]; by apply bool_decide_eq_false_2].
    by apply settlement_resolve; rewrite !settlement_skip.
  - apply settlement_resolve. rewrite !settlement_skip; try done.
    cbn [settles]. by apply bool_decide_eq_false_2.
Qed.

Lemma independent_requests_witness :
  let w2 := run [EvRegister "req_a_1" (JNum 25000); EvRegister "req_b_2" (JNum 25000)] initial in
  let p1 := submitted (Sample.screenshot "req_a_1" "AAAA") in
  let p2 := submitted (Sample.legacy "req_b_2" "a cat") in
  settlement 0 (log (deliver (JStr "req_a_1") p1 (deliver (JStr "req_b_2") p2 w2).2).2)
  = Some (Resolved p1).
Proof.
  intros w2 p1 p2.
  refine (proj1 (proj2 (independent_requests [] "req_a_1" "req_b_2" (JNum 25000) (JNum 25000)
                          p1 p2 _))).
  discriminate.
Defined.

(** X4.  [PUT] acts on the process only by delivering: unless it answers
    [ok] for a screenshot submission, the world is left as it was; when it
    does, exactly one waiter and one timer are gone. *)
Theorem PUT_acts_only_by_delivering (evs : list Event) (req : Outcome PutBody) :
  let w := run evs initial in
  let r := (PUT req w).1 in
  let w' := (PUT req w).2 in
  (r <> json BOk -> w' = w)
  /\ (r = json BOk ->
      S (size (pendingScreenshots w')) = size (pendingScreenshots w)
      /\ S (size (timers w')) = size (timers w)
      /\ now w' = now w).
Proof.
  intros w r w'. subst r w'.
  pose proof (coherent_run evs initial coherent_initial) as Hc. fold w in Hc.
  unfold PUT. destruct req as [b|msg]; [|by split].
  destruct (negb (truthy (b_requestId b))); [by split|].
  destruct (negb (bool_decide (b_stepCompleted b = JUndefined))); [by split|].
  unfold deliver.
  destruct (waiting_room_get (b_requestId b) w) as [[rid wt]|] eqn:Hget; [|by split].
  apply waiting_room_get_Some in Hget as [_ Hin].
  destruct (coh_waiter w Hc rid wt Hin) as [_ (tm & Htm & _)].
  cbn [fst snd pendingScreenshots timers now]. split; [done|]. intros _.
  rewrite !map_size_delete_Some by eauto.
  assert (size (pendingScreenshots w) <> 0%nat)
    by (apply (map_size_ne_0_lookup_2 _ rid); eauto).
  assert (size (timers w) <> 0%nat)
    by (apply (map_size_ne_0_lookup_2 _ (timer wt)); eauto).
  repeat split; lia.
Qed.

(** X5.  The waiting room holds no stale entry: a stored waiter belongs to
    a promise that is not settled yet and whose timer is still scheduled. *)
Theorem stored_waiter_is_pending (evs : list Event) (rid : string) (wt : Waiter) :
  pendingScreenshots (run evs initial) !! rid = Some wt ->
  let w := run evs initial in
  settle wt = timer wt
  /\ live rid (timer wt) w
  /\ settlement (settle wt) (log w) = None
  /\ handle_settle_count (settle wt) (log w) = 0%nat.
Proof.
  intros Hin w.
  pose proof (coherent_run evs initial coherent_initial) as Hc. fold w in Hc, Hin.
  destruct (coh_waiter w Hc rid wt Hin) as [Hst Hlive].
  destruct Hlive as (tm & Htm & Hreq).
  destruct (coh_timer w Hc _ _ Htm) as (_ & _ & Hnone).
  rewrite Hst. repeat split; try done.
  - by exists tm.
  - by apply settlement_None_count.
Qed.

Lemma stored_waiter_is_pending_witness :
  live "req_a_1" 0 (run [EvRegister "req_a_1" (JNum 25000); EvTick 10] initial).
Proof.
  refine (proj1 (proj2 (stored_waiter_is_pending
    [EvRegister "req_a_1" (JNum 25000); EvTick 10] "req_a_1" {| settle := 0; timer := 0 |} _))).
  reflexivity.
Defined.

(** With distinct request ids, the waiter of every scheduled timer is
    stored under the timer's request id. *)
Lemma step_keeps_waiter ids w e :
  coherent w -> single_use ids w ->
  (forall rid t, e = EvRegister rid t -> rid ∉ ids) ->
  (forall h tm, timers w !! h = Some tm ->
     pendingScreenshots w !! request tm = Some {| settle := h; timer := h |}) ->
  forall h tm, timers (step w e) !! h = Some tm ->
    pendingScreenshots (step w e) !! request tm = Some {| settle := h; timer := h |}.
Proof.
  intros Hc Hs Hfresh HD h tm.
  destruct e as [rid t|req|tid|d|[s|r]]; cbn [step].
  - world_simpl. intros Htm. apply lookup_insert_Some in Htm as [[<- <-]|[Hne Htm]].
    + cbn [request]. by rewrite lookup_insert_eq.
    + rewrite lookup_insert_ne; [by apply HD|].
      intros ->. destruct (su_unregistered _ _ Hs (request tm) (Hfresh _ _ eq_refl)) as [_ Hn].
      apply (Hn h). by exists tm.
  - destruct (PUT_world req w) as [Heq|(b & rid & wt & _ & _ & Hin & Heq)];
      rewrite Heq; [by apply HD|]. cbn [timers pendingScreenshots].
    intros Htm. apply lookup_delete_Some in Htm as [Hne Htm].
    rewrite lookup_delete_ne; [by apply HD|].
    intros ->. destruct (coh_waiter w Hc _ wt Hin) as [_ Hlive].
    destruct Hne. apply (su_unique _ _ Hs (request tm)); [done|by exists tm].
  - unfold fire. destruct (timers w !! tid) as [tm0|] eqn:Htm0; [|by apply HD].
    destruct (timer_due tm0 (now w)); [|by apply HD]. cbn [timers pendingScreenshots].
    intros Htm. apply lookup_delete_Some in Htm as [Hne Htm].
    rewrite lookup_delete_ne; [by apply HD|].
    intros Hreq. destruct Hne.
    apply (su_unique _ _ Hs (request tm)); [by exists tm0|by exists tm].
  - by apply HD.
  - by apply HD.
  - by apply HD.
Qed.

Lemma run_keeps_waiter evs :
  NoDup (registered_ids evs) ->
  forall h tm, timers (run evs initial) !! h = Some tm ->
    pendingScreenshots (run evs initial) !! request tm = Some {| settle := h; timer := h |}.
Proof.
  induction evs as [|e evs IH] using rev_ind; intros Hnd.
  - intros h tm Htm. unfold initial in Htm. cbn in Htm. by rewrite lookup_empty in Htm.
  - rewrite registered_ids_app in Hnd. apply NoDup_app in Hnd as (Hnd & Hfresh & _).
    rewrite run_app. cbn [run fold_left].
    apply (step_keeps_waiter (registered_ids evs)).
    + apply coherent_run, coherent_initial.
    + by apply single_use_run.
    + intros rid t -> Hin. apply (Hfresh rid Hin). cbn. left.
    + by apply IH.
Qed.

(** X6.  As long as generated request ids are distinct, no pending request
    is lost: while its timer is scheduled its waiter is stored under its
    id, so that a delivery for that id succeeds and resolves that very
    request. *)
Theorem pending_request_stays_deliverable
    (A : Type) (k : Settlement -> Prog A)
    (evs : list Event) (h : nat) (tm : Timer) (payload : ScreenshotData) :
  NoDup (registered_ids evs) ->
  timers (run evs initial) !! h = Some tm ->
  let w := run evs initial in
  let w' := (deliver (JStr (request tm)) payload w).2 in
  pendingScreenshots w !! request tm = Some {| settle := h; timer := h |}
  /\ deliver (JStr (request tm)) payload w = (true, w')
  /\ resume (Waiting h k) w' = start (k (Resolved payload)) w'.
Proof.
  intros Hnd Htm w w'.
  pose proof (coherent_run evs initial coherent_initial) as Hc. fold w in Hc, Htm.
  pose proof (run_keeps_waiter evs Hnd h tm Htm) as Hin. fold w in Hin.
  split; [done|]. subst w'. rewrite (deliver_known _ _ payload w Hin). split; [done|].
  cbn [snd settle timer]. apply resume_settled. cbn [log].
  apply settlement_resolve. rewrite !settlement_skip by done.
  by destruct (coh_timer w Hc h tm Htm) as (_ & _ & ?).
Qed.

Lemma pending_request_stays_deliverable_witness :
  let w := run [EvRegister "req_a_1" (JNum 25000); EvRegister "req_b_2" (JNum 25000);
                EvTick 10] initial in
  pendingScreenshots w !! "req_a_1" = Some {| settle := 0; timer := 0 |}.
Proof.
  intros w.
  refine (proj1 (pending_request_stays_deliverable unit (fun _ => Ret tt)
    [EvRegister "req_a_1" (JNum 25000); EvRegister "req_b_2" (JNum 25000); EvTick 10]
    0 {| due := Some 25000; request := "req_a_1"; promise := 0 |}
    (submitted (Sample.screenshot "req_a_1" "AAAA")) _ _)).
  - apply (bool_decide_unpack _). reflexivity.
  - reflexivity.
Defined.

(** ** More on the handlers and the router *)

Lemma not_missing_capture toolCall message :
  ~ missing_field CaptureScreenshotTool toolCall message ->
  truthy (resolved_room toolCall message) = true
  /\ truthy (p_question (tc_parameters toolCall)) = true
  /\ truthy (resolved_target toolCall message) = true.
Proof.
  unfold missing_field. intros Hn.
  destruct (truthy (resolved_room toolCall message)); [|tauto].
  destruct (truthy (p_question (tc_parameters toolCall))); [|tauto].
  destruct (truthy (resolved_target toolCall message)); tauto.
Qed.

Lemma not_missing_mark toolCall message :
  ~ missing_field MarkStepCompleteTool toolCall message ->
  truthy (resolved_room toolCall message) = true
  /\ truthy (resolved_target toolCall message) = true
  /\ p_stepId (tc_parameters toolCall) <> JUndefined.
Proof.
  unfold missing_field. intros Hn.
  destruct (truthy (resolved_room toolCall message)); [|tauto].
  destruct (truthy (resolved_target toolCall message)); tauto.
Qed.

(** The router on a tool call whose fields are present. *)
Lemma POST_valid env rid message toolCall tool :
  msg_type message = JStr "tool-call-attempt" ->
  msg_tool_call message = Some toolCall ->
  classify (tc_name toolCall) = Some tool ->
  ~ missing_field tool toolCall message ->
  POST env rid (Return (Some message))
  = match roomService env with
    | Throw msg => tool_response toolCall (Throw msg)
    | Return host =>
        try_catch
          (await_sendData (command host toolCall message (tool_command tool rid toolCall))
             match tool with
             | CaptureScreenshotTool =>
                 await_screenshot rid (effective_timeout toolCall)
                   (fun d => answer env (p_question (tc_parameters toolCall)) d)
             | MarkStepCompleteTool =>
                 Ret (JStr ("Step " +:+ ToString (p_stepId (tc_parameters toolCall))
                              +:+ " marked complete"))
             end)
          (tool_response toolCall)
    end.
Proof.
  intros Hty Htc Hcl Hok. rewrite (POST_tool_call env rid message toolCall Hty Htc), Hcl.
  destruct tool.
  - apply not_missing_capture in Hok as (Hr & Hq & Ht).
    destruct (roomService env) as [host|msg] eqn:Hrs.
    + by rewrite (handleCaptureScreenshot_valid env rid toolCall _ message host Hr Hq Ht Hrs).
    + unfold handleCaptureScreenshot.
      fold (resolved_room toolCall message) (resolved_target toolCall message).
      by rewrite Hr, Hq, Ht, Hrs.
  - apply not_missing_mark in Hok as (Hr & Ht & Hs).
    destruct (roomService env) as [host|msg] eqn:Hrs.
    + by rewrite (handleMarkStepComplete_valid env rid toolCall _ message host Hr Ht Hs Hrs).
    + unfold handleMarkStepComplete.
      fold (resolved_room toolCall message) (resolved_target toolCall message).
      rewrite Hr, Ht, Hrs. by rewrite bool_decide_eq_false_2.
Qed.

Lemma env_truthy_or a b : env_truthy (env_or a b) = env_truthy a || env_truthy b.
Proof. unfold env_or. by destruct (env_truthy a) eqn:Ha. Qed.

(** X7.  When the LiveKit key, secret or URL is not configured, a tool
    invocation whose fields are all present fails with [LiveKit not
    configured], answered with status 500; nothing is sent and nothing is
    registered. *)
Theorem livekit_not_configured_sends_nothing
    (env : Env) (rid : string) (message : CallMessage) (toolCall : ToolCall)
    (tool : Tool) (sc : Script) (w : World) :
  msg_type message = JStr "tool-call-attempt" ->
  msg_tool_call message = Some toolCall ->
  classify (tc_name toolCall) = Some tool ->
  ~ missing_field tool toolCall message ->
  env_truthy (LIVEKIT_API_KEY env) = false
  \/ env_truthy (LIVEKIT_API_SECRET env) = false
  \/ (env_truthy (LIVEKIT_URL env) = false
      /\ env_truthy (NEXT_PUBLIC_LIVEKIT_URL env) = false) ->
  play sc (POST env rid (Return (Some message))) w
  = (Done (Return (json_status
                     (BToolError "Tool execution failed: LiveKit not configured"
                        (tc_name toolCall) (tc_id toolCall)) 500)), w).
Proof.
  intros Hty Htc Hcl Hok Henv.
  rewrite (POST_valid env rid message toolCall tool Hty Htc Hcl Hok).
  assert (Hrs : roomService env = Throw "LiveKit not configured").
  { unfold roomService. rewrite env_truthy_or.
    destruct Henv as [->|[->|[-> ->]]]; cbn [negb orb]; by rewrite ?orb_true_r. }
  by rewrite Hrs.
Qed.

Lemma livekit_not_configured_sends_nothing_witness :
  let env := {| LIVEKIT_API_KEY := Some "key"; LIVEKIT_API_SECRET := Some "";
                LIVEKIT_URL := Some "wss://rooms.example"; NEXT_PUBLIC_LIVEKIT_URL := None;
                OPENAI_API_KEY := None |} in
  let tc := Sample.toolCall "markStepComplete" JUndefined (JNum 2) in
  play (Sample.script []) (POST env "req_a_1" (Return (Some (Sample.message tc)))) initial
  = (Done (Return (json_status
                     (BToolError "Tool execution failed: LiveKit not configured"
                        (JStr "markStepComplete") (JStr "call_1")) 500)), initial).
Proof.
  intros env tc.
  refine (livekit_not_configured_sends_nothing env "req_a_1" (Sample.message tc) tc
            MarkStepCompleteTool (Sample.script []) initial _ _ _ _ _).
  - reflexivity.
  - reflexivity.
  - reflexivity.
  - intros [H|[H|H]]; discriminate H.
  - right. left. reflexivity.
Defined.

(** X8.  When the transport rejects the send, the tool invocation fails
    with the transport's error, answered with status 500: the one command
    has been attempted, no waiter is registered and no timer is started. *)
Theorem transport_failure_registers_nothing
    (env : Env) (rid : string) (message : CallMessage) (toolCall : ToolCall)
    (tool : Tool) (host msg : string) (sc : Script) (w : World) :
  msg_type message = JStr "tool-call-attempt" ->
  msg_tool_call message = Some toolCall ->
  classify (tc_name toolCall) = Some tool ->
  ~ missing_field tool toolCall message ->
  roomService env = Return host ->
  sends sc = Throw msg ->
  play sc (POST env rid (Return (Some message))) w
  = (Done (Return (json_status
                     (BToolError ("Tool execution failed: " +:+ msg)
                        (tc_name toolCall) (tc_id toolCall)) 500)),
     log_effect (SentData (command host toolCall message (tool_command tool rid toolCall))) w).
Proof.
  intros Hty Htc Hcl Hok Hrs Hsend.
  rewrite (POST_valid env rid message toolCall tool Hty Htc Hcl Hok), Hrs.
  unfold play. rewrite Hsend. by destruct tool.
Qed.

Lemma transport_failure_registers_nothing_witness :
  let tc := Sample.toolCall "capture_screenshot" (JStr "What is this?") JUndefined in
  let sc := {| sends := Throw "room not found"; puts := []; fetches := Throw "" |} in
  (play sc (POST (Sample.env None) "req_a_1" (Return (Some (Sample.message tc)))) initial).1
  = Done (Return (json_status
                    (BToolError "Tool execution failed: room not found"
                       (JStr "capture_screenshot") (JStr "call_1")) 500)).
Proof.
  intros tc sc.
  refine (f_equal fst (transport_failure_registers_nothing (Sample.env None) "req_a_1"
            (Sample.message tc) tc CaptureScreenshotTool "https://rooms.example"
            "room not found" sc initial _ _ _ _ _ _)).
  - reflexivity.
  - reflexivity.
  - reflexivity.
  - intros [H|[H|H]]; discriminate H.
  - reflexivity.
  - reflexivity.
Defined.

Lemma strip_prefix_startsWith p s :
  startsWith p s = false -> strip_prefix p s = None.
Proof.
  revert s. induction p as [|a p IH]; intros s; [done|].
  destruct s as [|b s]; [done|]. cbn [startsWith strip_prefix].
  destruct (Ascii.eqb a b); [apply IH|done].
Qed.

(** X9.  The host of the room service is derived from the configured URL
    by its scheme: [wss:] becomes [https:], [ws:] becomes [http:] and any
    other URL is used as it is; a public URL that starts with [http] is
    used instead, whatever the other URL is. *)
Theorem httpBase_scheme (env : Env) (url rest : string) :
  (forall u, NEXT_PUBLIC_LIVEKIT_URL env = Some u -> startsWith "http" u = false) ->
  startsWith "ws:" url = false -> startsWith "wss:" url = false ->
  httpBase env ("wss:" +:+ rest) = "https:" +:+ rest
  /\ httpBase env ("ws:" +:+ rest) = "http:" +:+ rest
  /\ httpBase env url = url
  /\ forall env' u,
       NEXT_PUBLIC_LIVEKIT_URL env' = Some u -> startsWith "http" u = true ->
       httpBase env' url = u /\ httpBase env' ("wss:" +:+ rest) = u.
Proof.
  intros Hpub Hws Hwss.
  assert (Hbase : forall x, httpBase env x
            = replace_prefix "ws:" "http:" (replace_prefix "wss:" "https:" x)).
  { intros x. unfold httpBase. destruct (NEXT_PUBLIC_LIVEKIT_URL env) as [u|] eqn:E; [|done].
    by rewrite (Hpub u eq_refl). }
  rewrite !Hbase. split; [reflexivity|]. split; [reflexivity|]. split.
  - unfold replace_prefix. by rewrite (strip_prefix_startsWith _ _ Hwss),
      (strip_prefix_startsWith _ _ Hws).
  - intros env' u Hu Hhttp. unfold httpBase. by rewrite Hu, Hhttp.
Qed.

Lemma httpBase_scheme_witness :
  httpBase (Sample.env None) ("wss:" +:+ "//rooms.example") = "https:" +:+ "//rooms.example".
Proof.
  refine (proj1 (httpBase_scheme (Sample.env None) "rooms.example" "//rooms.example" _ _ _)).
  - intros u H. discriminate H.
  - reflexivity.
  - reflexivity.
Defined.

(** ** A screenshot request from the invocation to the response *)

Lemma timer_delay_bound v d : timer_delay v = Some d -> 1 <= d <= TIMEOUT_MAX.
Proof.
  unfold timer_delay, TIMEOUT_MAX. destruct (Number v) as [|z|s]; intros [= <-]; [lia| ].
  destruct (1 <=? z) eqn:E1; destruct (z <=? 2147483647) eqn:E2; cbn [andb]; lia.
Qed.

(** A sent screenshot request that is answered by one submission continues
    with the submitted object in the world after the delivery. *)
Lemma play_delivered {A B} (sc : Script) cmd rid t
    (K : ScreenshotData -> Prog A) (f : Outcome A -> Prog B) b w :
  coherent w ->
  rid <> "" -> b_requestId b = JStr rid -> b_stepCompleted b = JUndefined ->
  sends sc = Return tt -> puts sc = [b] ->
  let w3 := (deliver (JStr rid) (submitted b)
               (register rid t (log_effect (SentData cmd) w)).2).2 in
  play sc (try_catch (await_sendData cmd (await_screenshot rid t K)) f) w
  = fetched (fetches sc) (start (try_catch (K (submitted b)) f) w3).1
                         (start (try_catch (K (submitted b)) f) w3).2.
Proof.
  intros Hc Hne Hb Hbs Hsend Hputs w3.
  assert (Hc1 : coherent (log_effect (SentData cmd) w)) by by apply coherent_log_effect.
  destruct (register_then_deliver rid t (submitted b) _ Hc1)
    as (Hh & Hin & Hd & Hlog & Hgone & Hset).
  fold w3 in Hd, Hlog, Hgone, Hset.
  unfold play. rewrite Hsend, Hputs.
  cbn [start await_sendData sent await_screenshot try_catch].
  destruct (register rid t (log_effect (SentData cmd) w)) as [h w2'] eqn:Hreg.
  cbn [fst snd] in *. subst w3. cbn [fold_left].
  rewrite (PUT_submission b rid _ Hne Hb Hbs), Hin. cbn [snd resume].
  apply (f_equal fst) in Hreg. cbn in Hreg. subst h.
  rewrite Hset.
  by destruct (start (try_catch (K (submitted b)) f) _).
Qed.

(** X10.  A screenshot request for which nothing is submitted ends when its
    timer runs: the invocation is answered with status 500 and the error
    [capture_screenshot timed out], and neither the waiter nor the timer
    is left behind. *)
Theorem unanswered_capture_times_out
    (env : Env) (rid : string) (message : CallMessage) (toolCall : ToolCall)
    (host : string) (evs : list Event) (sc : Script) :
  msg_type message = JStr "tool-call-attempt" ->
  msg_tool_call message = Some toolCall ->
  classify (tc_name toolCall) = Some CaptureScreenshotTool ->
  ~ missing_field CaptureScreenshotTool toolCall message ->
  roomService env = Return host ->
  sends sc = Return tt -> puts sc = [] ->
  let w := run evs initial in
  let r := play sc (POST env rid (Return (Some message))) w in
  r.1 = Done (Return (json_status
                        (BToolError "Tool execution failed: capture_screenshot timed out"
                           (tc_name toolCall) (tc_id toolCall)) 500))
  /\ pendingScreenshots r.2 !! rid = None
  /\ timers r.2 !! next_handle w = None
  /\ sent_commands (log r.2)
     = sent_commands (log w)
       ++ [command host toolCall message
             (capture_screenshot (p_question (tc_parameters toolCall)) rid)].
Proof.
  intros Hty Htc Hcl Hok Hrs Hsend Hputs w r. subst r.
  pose proof (coherent_run evs initial coherent_initial) as Hc. fold w in Hc.
  rewrite (POST_valid env rid message toolCall _ Hty Htc Hcl Hok), Hrs.
  cbn [tool_command].
  set (cmd := command host toolCall message _).
  unfold play. rewrite Hsend, Hputs.
  cbn [start await_sendData sent await_screenshot try_catch register fst snd].
  cbn [log_effect now next_handle pendingScreenshots timers log].
  set (h := next_handle w).
  set (tm := {| due := (fun d => now w + d) <$> timer_delay (effective_timeout toolCall);
                request := rid; promise := h |}).
  set (w2 := {| pendingScreenshots := _; timers := _; now := _; next_handle := _; log := _ |}).
  assert (Hfire : fire h (tick (TIMEOUT_MAX + 1) w2)
    = {| pendingScreenshots := delete rid (pendingScreenshots w2);
         timers := delete h (timers w2);
         now := now w + Z.max 0 (TIMEOUT_MAX + 1);
         next_handle := S h;
         log := Reject rid h "capture_screenshot timed out" :: MapDelete rid :: log w2 |}).
  { unfold fire. cbn [tick timers now]. subst w2. cbn [timers now].
    rewrite lookup_insert_eq. fold tm.
    assert (Hdue : timer_due tm (now w + Z.max 0 (TIMEOUT_MAX + 1)) = true).
    { unfold timer_due, tm. cbn [due].
      destruct (timer_delay (effective_timeout toolCall)) as [d|] eqn:Hd; [|done].
      apply timer_delay_bound in Hd. cbn. apply Z.leb_le. unfold TIMEOUT_MAX in *. lia. }
    by rewrite Hdue. }
  rewrite Hfire. cbn [resume log].
  assert (Hset : settlement h (Reject rid h "capture_screenshot timed out"
                                 :: MapDelete rid :: log w2)
                 = Some (Rejected "capture_screenshot timed out")).
  { apply settlement_reject. subst w2. cbn [log].
    rewrite !settlement_skip by done. by apply (coh_fresh w Hc). }
  rewrite Hset. cbn [start try_catch tool_response fetched fst snd pendingScreenshots timers log].
  repeat split.
  - apply lookup_delete_eq.
  - apply lookup_delete_eq.
Qed.

Lemma unanswered_capture_times_out_witness :
  let tc := Sample.toolCall "capture_screenshot" (JStr "What is this?") JUndefined in
  (play (Sample.script []) (POST (Sample.env None) "req_a_1"
                              (Return (Some (Sample.message tc)))) (run [] initial)).1
  = Done (Return (json_status
                    (BToolError "Tool execution failed: capture_screenshot timed out"
                       (JStr "capture_screenshot") (JStr "call_1")) 500)).
Proof.
  intros tc.
  refine (proj1 (unanswered_capture_times_out (Sample.env None) "req_a_1" (Sample.message tc)
                   tc "https://rooms.example" [] (Sample.script []) _ _ _ _ _ _ _)).
  - reflexivity.
  - reflexivity.
  - reflexivity.
  - intros [H|[H|H]]; discriminate H.
  - reflexivity.
  - reflexivity.
  - reflexivity.
Defined.

(** ** More on the vision adapter *)

Lemma delivered_log cmd rid t b w :
  let w3 := (deliver (JStr rid) (submitted b)
               (register rid t (log_effect (SentData cmd) w)).2).2 in
  exists h, log w3 = Resolve rid h (submitted b) :: ClearTimeout h :: MapDelete rid
                       :: MapSet rid h :: SetTimeout h (timer_delay t)
                       :: SentData cmd :: log w.
Proof.
  intros w3. exists (next_handle w). subst w3.
  rewrite (deliver_known rid {| settle := next_handle w; timer := next_handle w |});
    [done|]. world_simpl. apply lookup_insert_eq.
Qed.

(** X11.  A delivered result without an image and with a non-empty answer
    is returned as it is, with or without an inference credential, and the
    inference endpoint is not called. *)
Theorem legacy_answer_returned_verbatim
    (env : Env) (rid : string) (message : CallMessage) (toolCall : ToolCall)
    (host : string) (evs : list Event) (sc : Script) (b : PutBody) :
  msg_type message = JStr "tool-call-attempt" ->
  msg_tool_call message = Some toolCall ->
  classify (tc_name toolCall) = Some CaptureScreenshotTool ->
  ~ missing_field CaptureScreenshotTool toolCall message ->
  roomService env = Return host ->
  rid <> "" -> b_requestId b = JStr rid -> b_stepCompleted b = JUndefined ->
  sends sc = Return tt -> puts sc = [b] ->
  truthy (b_imageBase64 b) = false -> truthy (b_answer b) = true ->
  let w := run evs initial in
  let r := play sc (POST env rid (Return (Some message))) w in
  r.1 = Done (Return (json (BToolSuccess (tc_name toolCall) (tc_id toolCall) (b_answer b))))
  /\ fetch_requests (log r.2) = fetch_requests (log w).
Proof.
  intros Hty Htc Hcl Hok Hrs Hne Hb Hbs Hsend Hputs Hi Ha w r. subst r.
  pose proof (coherent_run evs initial coherent_initial) as Hc. fold w in Hc.
  rewrite (POST_valid env rid message toolCall _ Hty Htc Hcl Hok), Hrs.
  rewrite (play_delivered sc _ rid _ _ _ b w Hc Hne Hb Hbs Hsend Hputs).
  assert (Hans : answer env (p_question (tc_parameters toolCall)) (submitted b)
                 = Ret (b_answer b)).
  { assert (Hor : or (b_answer b) (JStr "") = b_answer b) by (unfold or; by rewrite Ha).
    unfold answer, submitted. rewrite Hi. cbn [imageBase64 legacyAnswer]. rewrite Hor.
    change (truthy (JStr "")) with false. by rewrite Ha. }
  rewrite Hans. cbn [try_catch tool_response start fetched fst snd].
  split; [done|].
  destruct (delivered_log (command host toolCall message
              (tool_command CaptureScreenshotTool rid toolCall)) rid
              (effective_timeout toolCall) b w) as [h ->].
  reflexivity.
Qed.

Lemma legacy_answer_returned_verbatim_witness :
  let tc := Sample.toolCall "capture_screenshot" (JStr "What is this?") JUndefined in
  (play (Sample.script [Sample.legacy "req_a_1" "a cat"])
     (POST (Sample.env (Some "sk")) "req_a_1" (Return (Some (Sample.message tc))))
     (run [] initial)).1
  = Done (Return (json (BToolSuccess (JStr "capture_screenshot") (JStr "call_1")
                          (JStr "a cat")))).
Proof.
  intros tc.
  refine (proj1 (legacy_answer_returned_verbatim (Sample.env (Some "sk")) "req_a_1"
                   (Sample.message tc) tc "https://rooms.example" []
                   (Sample.script [Sample.legacy "req_a_1" "a cat"])
                   (Sample.legacy "req_a_1" "a cat") _ _ _ _ _ _ _ _ _ _ _ _));
    first [reflexivity | discriminate | intros [H|[H|H]]; discriminate H].
Defined.

Lemma or_truthy a b : truthy a = true -> or a b = a.
Proof. intros Ha. unfold or. by rewrite Ha. Qed.

Lemma normalize_Return_truthy image url :
  normalize image = Return url -> truthy image = true.
Proof. destruct image as [| | | |s]; try done. by destruct s. Qed.

(** X12.  With a credential and a submitted image that normalises to
    [url], the handler makes exactly one inference request, authorised by
    the key and carrying the question and [url].  A response that is not ok
    fails the invocation with [Vision LLM error: ] and the upstream text, a
    failed request with its error, both answered with status 500; an ok
    response is answered with the extracted text. *)
Theorem inference_call
    (env : Env) (rid : string) (message : CallMessage) (toolCall : ToolCall)
    (host key url : string) (evs : list Event) (sc : Script) (b : PutBody) :
  msg_type message = JStr "tool-call-attempt" ->
  msg_tool_call message = Some toolCall ->
  classify (tc_name toolCall) = Some CaptureScreenshotTool ->
  ~ missing_field CaptureScreenshotTool toolCall message ->
  roomService env = Return host ->
  rid <> "" -> b_requestId b = JStr rid -> b_stepCompleted b = JUndefined ->
  sends sc = Return tt -> puts sc = [b] ->
  OPENAI_API_KEY env = Some key -> key <> "" ->
  normalize (b_imageBase64 b) = Return url ->
  let w := run evs initial in
  let r := play sc (POST env rid (Return (Some message))) w in
  let failed msg :=
    json_status (BToolError ("Tool execution failed: " +:+ msg)
                   (tc_name toolCall) (tc_id toolCall)) 500 in
  r.1 = Done (Return
                match fetches sc with
                | Throw msg => failed msg
                | Return res =>
                    if res_ok res
                    then json (BToolSuccess (tc_name toolCall) (tc_id toolCall)
                                 (extract_answer res))
                    else failed ("Vision LLM error: " +:+ res_text res)
                end)
  /\ fetch_requests (log r.2)
     = fetch_requests (log w)
       ++ [{| fr_bearer := key;
              fr_text := p_question (tc_parameters toolCall);
              fr_image_url := url |}].
Proof.
  intros Hty Htc Hcl Hok Hrs Hne Hb Hbs Hsend Hputs Hkey Hkey0 Hnorm w r failed. subst r.
  pose proof (coherent_run evs initial coherent_initial) as Hc. fold w in Hc.
  rewrite (POST_valid env rid message toolCall _ Hty Htc Hcl Hok), Hrs.
  rewrite (play_delivered sc _ rid _ _ _ b w Hc Hne Hb Hbs Hsend Hputs).
  pose proof (normalize_Return_truthy _ _ Hnorm) as Hi.
  destruct (not_missing_capture _ _ Hok) as (_ & Hq & _).
  assert (Hsub : submitted b = {| imageBase64 := b_imageBase64 b;
                                  sd_question := b_question b;
                                  legacyAnswer := JUndefined |}).
  { unfold submitted. by rewrite Hi. }
  rewrite Hsub, answer_image by done. cbn [imageBase64 sd_question].
  rewrite Hkey, Hnorm.
  assert (Hk : env_truthy (Some key) = true).
  { cbn. apply negb_true_iff. by apply String.eqb_neq. }
  rewrite Hk. cbn [negb default].
  rewrite (or_truthy _ (b_question b) Hq), (or_truthy _ (JStr "What do you see?") Hq).
  rewrite <- Hsub.
  destruct (delivered_log (command host toolCall message
              (tool_command CaptureScreenshotTool rid toolCall)) rid
              (effective_timeout toolCall) b w) as [h Hlog].
  cbn [try_catch await_fetch start fetched fst snd].
  split.
  - destruct (fetches sc) as [res|msg]; cbn [start try_catch tool_response fst];
      [|done]. by destruct (res_ok res).
  - destruct (fetches sc) as [res|msg]; cbn [start try_catch tool_response snd].
    + destruct (res_ok res); cbn [negb start tool_response try_catch snd log_effect log];
        rewrite Hlog; reflexivity.
    + cbn [log_effect log]. rewrite Hlog. reflexivity.
Qed.

Lemma inference_call_witness :
  let tc := Sample.toolCall "capture_screenshot" (JStr "What is this?") JUndefined in
  let b := Sample.screenshot "req_a_1" "data:image/png;base64,TW Fu" in
  let sc := {| sends := Return tt; puts := [b];
               fetches := Return {| res_ok := false; res_text := "quota"; res_output := None |} |} in
  (play sc (POST (Sample.env (Some "sk")) "req_a_1" (Return (Some (Sample.message tc))))
     (run [] initial)).1
  = Done (Return (json_status
                    (BToolError "Tool execution failed: Vision LLM error: quota"
                       (JStr "capture_screenshot") (JStr "call_1")) 500)).
Proof.
  intros tc b sc.
  refine (proj1 (inference_call (Sample.env (Some "sk")) "req_a_1" (Sample.message tc) tc
                   "https://rooms.example" "sk" "data:image/png;base64,TWFu" [] sc b
                   _ _ _ _ _ _ _ _ _ _ _ _ _));
    first [reflexivity | discriminate | intros [H|[H|H]]; discriminate H].
Defined.

(** ** Normalisation *)

Lemma all_plain_no_line_terminator s :
  Base64.all_plain s = true -> no_line_terminator s = true.
Proof.
  induction s as [|c s IH]; [done|]. cbn [Base64.all_plain no_line_terminator].
  intros H. apply andb_true_iff in H as [Hc Hs]. rewrite (IH Hs), andb_true_r.
  unfold Base64.plain in Hc. apply andb_true_iff in Hc as [Hc _].
  unfold Base64.is_space in Hc. unfold is_line_terminator.
  destruct (N_of_ascii c =? 10)%N eqn:E10.
  - apply N.eqb_eq in E10. rewrite E10 in Hc. discriminate Hc.
  - destruct (N_of_ascii c =? 13)%N eqn:E13; [|done].
    apply N.eqb_eq in E13. rewrite E13 in Hc. discriminate Hc.
Qed.

Lemma strip_whitespace_data s :
  startsWith "data:" s = true ->
  startsWith "data:" (Base64.strip_whitespace s) = true.
Proof.
  intros H. apply Base64Facts.startsWith_append in H as [rest ->]. reflexivity.
Qed.

(** X13.  Line-wrapped base64 is canonicalised: when a submitted image is
    the base64 text of a non-empty buffer with white space put anywhere
    into it, the clean data URL carries the text without the white
    space. *)
Theorem line_wrapped_base64_normalized (buf : Base64.Buffer) (s : string) :
  buf <> [] ->
  Base64.strip_whitespace s = Base64.toString buf ->
  normalize (JStr s) = Return ("data:image/jpeg;base64," +:+ Base64.toString buf).
Proof.
  intros Hne Hs. unfold normalize.
  assert (Hd : startsWith "data:" s = false).
  { destruct (startsWith "data:" s) eqn:E; [|done].
    apply strip_whitespace_data in E. rewrite Hs in E.
    by rewrite (Base64Facts.startsWith_data_plain _ (Base64Facts.toString_plain buf)) in E. }
  rewrite Hd, Hs, Base64Facts.from_toString.
  destruct buf; [done|]. reflexivity.
Qed.

Lemma line_wrapped_base64_normalized_witness :
  normalize (JStr "TWFu
IQ= =") = Return ("data:image/jpeg;base64," +:+ Base64.toString [x4d; x61; x6e; x21]).
Proof.
  refine (line_wrapped_base64_normalized [x4d; x61; x6e; x21] _ _ _).
  - discriminate.
  - reflexivity.
Defined.

(** X14.  For a data URL that matches the pattern, the normalisation keeps
    the media type and replaces the payload by the canonical base64 text of
    the bytes it decodes to; a payload that decodes to no byte is rejected
    with [Invalid base64 payload for screenshot]. *)
Theorem data_url_keeps_media_type (mime payload : string) :
  mime <> "" -> has_char ";" mime = false -> no_line_terminator payload = true ->
  let buf := Base64.from (Base64.strip_whitespace payload) in
  normalize (JStr ("data:" +:+ mime +:+ ";base64," +:+ payload))
  = if (length buf =? 0)%nat then Throw "Invalid base64 payload for screenshot"
    else Return ("data:" +:+ mime +:+ ";base64," +:+ Base64.toString buf).
Proof.
  intros Hm0 Hm Hl buf. unfold normalize.
  replace (startsWith "data:" ("data:" +:+ mime +:+ ";base64," +:+ payload)) with true
    by reflexivity.
  rewrite (match_data_url_complete mime payload Hm0 Hm Hl).
  rewrite (or_truthy (JStr mime)) by by apply truthy_JStr.
  assert (Hp : ToString (or (JStr payload) (JStr "")) = payload).
  { unfold or. destruct payload; reflexivity. }
  rewrite Hp. cbn [ToString]. fold buf. by destruct (length buf =? 0)%nat.
Qed.

Lemma data_url_keeps_media_type_witness :
  normalize (JStr ("data:" +:+ "image/png" +:+ ";base64," +:+ "TW Fu"))
  = Return ("data:" +:+ "image/png" +:+ ";base64," +:+ "TWFu").
Proof.
  refine (data_url_keeps_media_type "image/png" "TW Fu" _ _ _); first [reflexivity|discriminate].
Defined.

(** What a successful normalisation returns. *)
Lemma normalize_Return s url :
  normalize (JStr s) = Return url ->
  exists mime buf,
    url = "data:" +:+ mime +:+ ";base64," +:+ Base64.toString buf
    /\ mime <> "" /\ has_char ";" mime = false /\ buf <> [].
Proof.
  unfold normalize. destruct (startsWith "data:" s).
  - destruct (match_data_url s) as [[m p]|] eqn:Hmatch; [|done].
    apply match_data_url_sound in Hmatch as (_ & Hm0 & Hm & _).
    rewrite (or_truthy (JStr m)) by by apply truthy_JStr. cbn [ToString].
    set (buf := Base64.from _).
    destruct (length buf =? 0)%nat eqn:E; [done|]. intros [= <-].
    exists m, buf. repeat split; try done. intros Hb. by rewrite Hb in E.
  - set (buf := Base64.from _).
    destruct (length buf =? 0)%nat eqn:E; [done|]. intros [= <-].
    exists "image/jpeg", buf. repeat split; try done. intros Hb. by rewrite Hb in E.
Qed.

(** A clean data URL is accepted as it is. *)
Lemma normalize_clean_url (mime : string) (buf : Base64.Buffer) :
  mime <> "" -> has_char ";" mime = false -> buf <> [] ->
  normalize (JStr ("data:" +:+ mime +:+ ";base64," +:+ Base64.toString buf))
  = Return ("data:" +:+ mime +:+ ";base64," +:+ Base64.toString buf).
Proof.
  intros Hm0 Hm Hbuf. pose proof (Base64Facts.toString_plain buf) as Hplain.
  unfold normalize.
  replace (startsWith "data:" ("data:" +:+ mime +:+ ";base64," +:+ Base64.toString buf))
    with true by reflexivity.
  rewrite (match_data_url_complete mime _ Hm0 Hm (all_plain_no_line_terminator _ Hplain)).
  rewrite (or_truthy (JStr mime)) by by apply truthy_JStr.
  rewrite (or_truthy (JStr (Base64.toString buf)))
    by by apply truthy_JStr, Base64Facts.toString_nonempty.
  cbn [ToString].
  rewrite (Base64Facts.strip_whitespace_plain _ Hplain), Base64Facts.from_toString.
  by destruct buf.
Qed.

(** X15.  The normalisation is idempotent: the clean data URL it returns
    is accepted again and returned unchanged. *)
Theorem normalize_idempotent (s url : string) :
  normalize (JStr s) = Return url -> normalize (JStr url) = Return url.
Proof.
  intros H. apply normalize_Return in H as (mime & buf & -> & Hm0 & Hm & Hbuf).
  by apply normalize_clean_url.
Qed.

Lemma normalize_idempotent_witness :
  normalize (JStr "data:image/png;base64,TWFu") = Return "data:image/png;base64,TWFu".
Proof.
  refine (normalize_idempotent "data:image/png;base64,TW Fu" _ _). reflexivity.
Defined.

Lemma bytes_of_few_sextets l : (length l < 2)%nat -> Base64.bytes_of_sextets l = [].
Proof. destruct l as [|a [|b l]]; cbn [length]; [done|done|lia]. Qed.

(** X16.  With a credential, a submitted image that is not a data URL and
    has fewer than two base64 characters before the first [=], such as
    white space only, fails with [Invalid base64 payload for screenshot];
    no inference request is made. *)
Theorem blank_image_rejected
    (env : Env) (question : JsVal) (data : ScreenshotData) (s : string) (w : World) :
  env_truthy (OPENAI_API_KEY env) = true ->
  imageBase64 data = JStr s -> s <> "" ->
  startsWith "data:" s = false ->
  (length (Base64.sextets (Base64.strip_whitespace s)) < 2)%nat ->
  answer env question data = Raise "Invalid base64 payload for screenshot"
  /\ start (answer env question data) w
     = (Done (Throw "Invalid base64 payload for screenshot"), w).
Proof.
  intros Hkey Hi Hs Hd Hfew.
  assert (Hans : answer env question data = Raise "Invalid base64 payload for screenshot").
  { rewrite answer_image by (rewrite Hi; by apply truthy_JStr).
    rewrite Hkey, Hi. cbn [negb]. unfold normalize. rewrite Hd.
    unfold Base64.from. by rewrite (bytes_of_few_sextets _ Hfew). }
  by rewrite Hans.
Qed.

Lemma blank_image_rejected_witness :
  answer (Sample.env (Some "sk")) (JStr "What is this?")
    (submitted (Sample.screenshot "req_a_1" "   "))
  = Raise "Invalid base64 payload for screenshot".
Proof.
  refine (proj1 (blank_image_rejected (Sample.env (Some "sk")) (JStr "What is this?")
                   (submitted (Sample.screenshot "req_a_1" "   ")) "   " initial _ _ _ _ _));
    first [reflexivity | discriminate | vm_compute; lia].
Defined.

(** ** The text of the inference response *)

Lemma find_first {A} (p : A -> bool) pre x post :
  Forall (fun y => p y = false) pre -> p x = true ->
  List.find p (pre ++ x :: post) = Some x.
Proof.
  intros Hpre Hx. induction Hpre as [|y pre Hy _ IH]; cbn [app List.find].
  - by rewrite Hx.
  - by rewrite Hy.
Qed.

Lemma find_none {A} (p : A -> bool) l :
  Forall (fun y => p y = false) l -> List.find p l = None.
Proof.
  intros Hl. induction Hl as [|y l Hy _ IH]; cbn [List.find]; [done|]. by rewrite Hy.
Qed.

(** X17.  The answer is read from the first [message] item of the output
    only: it is the text of that item's first [output_text] block, and the
    fallback [No response text found] when that item has no content, no
    such block or an empty text, whatever the later items hold. *)
Theorem answer_from_first_message
    (res : FetchResponse) (pre post : list OutputItem) (item : OutputItem) :
  res_output res = Some (pre ++ item :: post) ->
  Forall (fun i => is_message i = false) pre ->
  is_message item = true ->
  (forall cpre c cpost,
      oi_content item = Some (cpre ++ c :: cpost) ->
      Forall (fun i => is_output_text i = false) cpre ->
      is_output_text c = true ->
      extract_answer res = or (ci_text c) (JStr "No response text found"))
  /\ (oi_content item = None -> extract_answer res = JStr "No response text found")
  /\ (forall content,
        oi_content item = Some content ->
        Forall (fun i => is_output_text i = false) content ->
        extract_answer res = JStr "No response text found").
Proof.
  intros Hout Hpre Hitem.
  assert (Hfind : List.find (fun i => bool_decide (oi_type i = JStr "message"))
                    (pre ++ item :: post) = Some item) by by apply find_first.
  unfold extract_answer. rewrite Hout, Hfind. destruct item as [ty content].
  cbn [oi_content]. repeat split.
  - intros cpre c cpost -> Hcpre Hc.
    by rewrite (find_first (fun i => bool_decide (ci_type i = JStr "output_text"))
                  cpre c cpost Hcpre Hc).
  - by intros ->.
  - intros content' -> Hnone.
    by rewrite (find_none (fun i => bool_decide (ci_type i = JStr "output_text")) _ Hnone).
Qed.

Lemma answer_from_first_message_witness :
  let first := {| oi_type := JStr "message"; oi_content := None |} in
  let second :=
    {| oi_type := JStr "message";
       oi_content := Some [{| ci_type := JStr "output_text"; ci_text := JStr "a switch" |}] |} in
  extract_answer {| res_ok := true; res_text := "";
                    res_output := Some [{| oi_type := JStr "reasoning"; oi_content := None |};
                                        first; second] |}
  = JStr "No response text found".
Proof.
  intros first second.
  refine (proj1 (proj2 (answer_from_first_message _
            [{| oi_type := JStr "reasoning"; oi_content := None |}] [second] first _ _ _)) _);
    first [reflexivity | by repeat constructor].
Defined.

(** ** Events that are not tool calls, and the webhook dialect *)

(** X18.  An event that is not a tool call, and also a
    [tool-call-attempt] that carries no tool call, is acknowledged with
    status 200 and a message naming the event type; nothing is sent or
    registered. *)
Theorem other_events_acknowledged
    (env : Env) (rid : string) (message : CallMessage) (sc : Script) (w : World) :
  msg_type message <> JStr "tool-call-attempt" \/ msg_tool_call message = None ->
  play sc (POST env rid (Return (Some message))) w
  = (Done (Return (json (BEvent ("Event type '" +:+ ToString (msg_type message)
                                   +:+ "' received but not actively handled in this demo.")))),
     w).
Proof.
  intros [Hty|Htc]; unfold POST.
  - rewrite bool_decide_eq_false_2 by done. reflexivity.
  - rewrite Htc. by destruct (bool_decide _).
Qed.

Lemma other_events_acknowledged_witness :
  let message := {| msg_type := JStr "tool-call-attempt"; msg_call := None;
                    msg_tool_call := None |} in
  play (Sample.script []) (POST (Sample.env None) "req_a_1" (Return (Some message))) initial
  = (Done (Return (json (BEvent
       "Event type 'tool-call-attempt' received but not actively handled in this demo."))),
     initial).
Proof.
  intros message.
  refine (other_events_acknowledged (Sample.env None) "req_a_1" message (Sample.script [])
            initial _).
  right. reflexivity.
Defined.

(** X19.  A body without a message whose event is absent, or a string
    other than [tool.attempted], is refused with status 400 and [Invalid
    event structure: Missing message object.], whatever tool data it
    carries; nothing is sent or registered. *)
Theorem body_without_tool_attempt_refused
    (env : Env) (rid : string) (raw : Raw) (sc : Script) (w : World) :
  raw_message raw = None ->
  truthy (raw_event raw) = false
  \/ (exists evt, raw_event raw = JStr evt /\ evt <> "tool.attempted") ->
  play sc (POST_body env rid (Return (Some raw))) w
  = (Done (Return (json_status
                     (BError "Invalid event structure: Missing message object.") 400)), w).
Proof.
  intros Hm He. unfold POST_body, normalize_event. rewrite Hm.
  destruct He as [->|(evt & Hevt & Hne)]; [done|].
  rewrite Hevt. destruct (truthy (JStr evt)) eqn:Ht; [|done].
  rewrite (or_truthy _ _ Ht). cbn [ToString].
  apply String.eqb_neq in Hne. by rewrite Hne.
Qed.

Lemma body_without_tool_attempt_refused_witness :
  let raw :=
    {| raw_message := None; raw_event := JStr "tool.completed";
       raw_data := Some {| rd_tool_name := JStr "markStepComplete"; rd_tool_id := JStr "t1";
                           rd_parameters := None; rd_agent_name := JUndefined |};
       raw_user_data_dict := None; raw_user_data := None; raw_userData := None;
       raw_room_name := JStr "room-7"; raw_roomName := JUndefined; raw_user := None;
       raw_user_id := JStr "web-ab12"; raw_userId := JUndefined |} in
  play (Sample.script []) (POST_body (Sample.env None) "req_a_1" (Return (Some raw))) initial
  = (Done (Return (json_status
                     (BError "Invalid event structure: Missing message object.") 400)),
     initial).
Proof.
  intros raw.
  refine (body_without_tool_attempt_refused (Sample.env None) "req_a_1" raw
            (Sample.script []) initial _ _).
  - reflexivity.
  - right. exists "tool.completed". split; [reflexivity|discriminate].
Defined.

Lemma pretty_N_go_nonempty x s : s <> "" -> pretty_N_go x s <> "".
Proof.
  revert s. induction (N.lt_wf_0 x) as [x _ IH]; intros s Hs.
  assert (x = 0 \/ 0 < x)%N as [->|Hx] by lia.
  - by rewrite pretty_N_go_0.
  - rewrite pretty_N_go_step by done. apply IH; [by apply N.div_lt|done].
Qed.

Lemma pretty_Z_nonempty (z : Z) : pretty z <> "".
Proof.
  assert (HN : forall p, pretty (Npos p) <> "").
  { intros p. unfold pretty, pretty_N. rewrite decide_False by done.
    rewrite pretty_N_go_step by lia. by apply pretty_N_go_nonempty. }
  destruct z as [|p|p]; [done|apply HN|].
  unfold pretty, pretty_Z. done.
Qed.

(** The string of a truthy value is not empty. *)
Lemma ToString_truthy v : truthy v = true -> truthy (JStr (ToString v)) = true.
Proof.
  intros Hv. apply truthy_JStr. destruct v as [| |[|]|z|s]; try done.
  - apply pretty_Z_nonempty.
  - cbn in Hv. apply negb_true_iff in Hv. by apply String.eqb_neq.
Qed.

Lemma normalize_event_tool_attempted raw :
  raw_message raw = None -> raw_event raw = JStr "tool.attempted" ->
  normalize_event raw
  = let data := default no_data (raw_data raw) in
    let userData :=
      default no_user_data
        (first_present (raw_user_data_dict raw)
           (first_present (raw_user_data raw) (raw_userData raw))) in
    let userId :=
      or (match raw_user raw with Some u => ru_id u | None => JUndefined end)
        (or (raw_user_id raw)
           (or (raw_userId raw) (or (ud_user_id userData) (ud_userId userData)))) in
    Some {| msg_type := JStr "tool-call-attempt";
            msg_call :=
              Some {| call_id :=
                        or (raw_room_name raw)
                          (or (raw_roomName raw)
                             (or (ud_room_name userData) (ud_roomName userData)));
                      call_user :=
                        if truthy userId then Some {| user_id := JStr (ToString userId) |}
                        else None |};
            msg_tool_call :=
              Some {| tc_name := rd_tool_name data;
                      tc_id := rd_tool_id data;
                      tc_parameters := default no_parameters (rd_parameters data) |} |}.
Proof. intros Hm He. unfold normalize_event. rewrite Hm, He. reflexivity. Qed.

(** X20.  A [tool.attempted] webhook for [markStepComplete] on which the
    parameters name neither room nor participant is served from the
    webhook's own fields: the command goes to the room [room_name] and to
    the one participant whose identity is the user id as a string.  The
    step is a safe integer and the user id is not a number beyond the safe
    integers, so that both are printed in decimal. *)
Theorem webhook_step_completion
    (env : Env) (rid host : string) (raw : Raw) (data : RawData) (params : Parameters)
    (user : RawUser) (s : Z) (sc : Script) (w : World) :
  raw_message raw = None ->
  raw_event raw = JStr "tool.attempted" ->
  raw_data raw = Some data ->
  rd_tool_name data = JStr "markStepComplete" ->
  rd_parameters data = Some params ->
  p_stepId params = JNum s -> safe_integer s = true ->
  truthy (p_roomName params) = false -> truthy (p_targetIdentity params) = false ->
  truthy (raw_room_name raw) = true ->
  raw_user raw = Some user -> truthy (ru_id user) = true -> printable (ru_id user) = true ->
  roomService env = Return host ->
  sends sc = Return tt ->
  play sc (POST_body env rid (Return (Some raw))) w
  = (Done (Return (json (BToolSuccess (JStr "markStepComplete") (rd_tool_id data)
                           (JStr ("Step " +:+ pretty s +:+ " marked complete"))))),
     log_effect
       (SentData {| sd_host := host;
                    sd_room := raw_room_name raw;
                    sd_data := mark_step_complete (Int s) rid;
                    sd_kind := 1;
                    sd_destinationIdentities := [JStr (ToString (ru_id user))] |}) w).
Proof.
  intros Hm He Hd Hname Hp Hs _ Hr Ht Hroom Huser Hu _ Hrs Hsend.
  unfold POST_body. rewrite (normalize_event_tool_attempted raw Hm He). cbv zeta.
  rewrite Hd, Huser. cbn [from_option]. unfold id.
  rewrite (or_truthy (raw_room_name raw) _ Hroom), (or_truthy (ru_id user) _ Hu).
  rewrite Hu, Hname, Hp. cbn [from_option]. unfold id.
  set (message := {| msg_type := _; msg_call := _; msg_tool_call := _ |}).
  set (tc := {| tc_name := JStr "markStepComplete"; tc_id := rd_tool_id data;
                tc_parameters := params |}).
  assert (Hok : ~ missing_field MarkStepCompleteTool tc message).
  { unfold missing_field, resolved_room, resolved_target, or.
    cbn [tc tc_parameters message call_context_id call_context_user msg_call call_id
         call_user user_id].
    rewrite Hr, Ht, Hroom, Hs, (ToString_truthy _ Hu). by intros [H|[H|H]]. }
  rewrite (POST_valid env rid message tc MarkStepCompleteTool eq_refl eq_refl eq_refl Hok), Hrs.
  unfold play. rewrite Hsend.
  cbn [start await_sendData sent try_catch tool_response resume fetched fst snd
       tool_command tc_parameters tc].
  rewrite Hs. cbn [Number ToString].
  unfold command, resolved_room, resolved_target, or.
  cbn [tc tc_parameters message call_context_id call_context_user msg_call call_id
       call_user user_id].
  by rewrite Hr, Ht.
Qed.

Lemma webhook_step_completion_witness :
  let params := Sample.parameters JUndefined (JNum 2) in
  let data := {| rd_tool_name := JStr "markStepComplete"; rd_tool_id := JStr "t1";
                 rd_parameters := Some params; rd_agent_name := JUndefined |} in
  let raw :=
    {| raw_message := None; raw_event := JStr "tool.attempted"; raw_data := Some data;
       raw_user_data_dict := None; raw_user_data := None; raw_userData := None;
       raw_room_name := JStr "room-7"; raw_roomName := JStr "other"; raw_user := Some {| ru_id := JNum 42 |};
       raw_user_id := JStr "web-ab12"; raw_userId := JUndefined |} in
  play (Sample.script []) (POST_body (Sample.env None) "req_a_1" (Return (Some raw))) initial
  = (Done (Return (json (BToolSuccess (JStr "markStepComplete") (JStr "t1")
                           (JStr "Step 2 marked complete")))),
     log_effect
       (SentData {| sd_host := "https://rooms.example";
                    sd_room := JStr "room-7";
                    sd_data := mark_step_complete (Int 2) "req_a_1";
                    sd_kind := 1;
                    sd_destinationIdentities := [JStr "42"] |}) initial).
Proof.
  intros params data raw.
  refine (webhook_step_completion (Sample.env None) "req_a_1" "https://rooms.example" raw data
            params {| ru_id := JNum 42 |} 2 (Sample.script []) initial
            _ _ _ _ _ _ _ _ _ _ _ _ _ _ _); reflexivity.
Defined.

(** ** The capability client *)

Lemma findIndex_Some {A} (p : A -> bool) l i :
  findIndex p l = Some i -> exists x, l !! i = Some x /\ p x = true.
Proof.
  revert i. induction l as [|y l IH]; intros i; cbn [findIndex]; [done|].
  destruct (p y) eqn:Hy.
  - intros [= <-]. by exists y.
  - destruct (findIndex p l) as [j|]; [|done]. intros [= <-].
    destruct (IH j eq_refl) as (x & Hx & Hp). by exists x.
Qed.

Lemma findIndex_alter {A} (p : A -> bool) (g : A -> A) i l :
  (forall x, p (g x) = p x) -> findIndex p (alter g i l) = findIndex p l.
Proof.
  intros Hg. revert i. induction l as [|y l IH]; intros i; [done|].
  destruct i as [|i]; cbn [alter list_alter findIndex].
  - by rewrite Hg.
  - change (list_alter g i l) with (alter g i l). by rewrite IH.
Qed.

Lemma set_status_twice st (l : list Step) (i : nat) :
  alter (set_status st) i (alter (set_status st) i l) = alter (set_status st) i l.
Proof.
  rewrite list_alter_alter_eq. apply list_alter_ext; [|done].
  intros x _. reflexivity.
Qed.

(** X21.  Marking a step complete is idempotent: the updater applied a
    second time changes nothing. *)
Theorem complete_step_idempotent (stepId : Z) (l : list Step) :
  complete_step stepId (complete_step stepId l) = complete_step stepId l.
Proof.
  unfold complete_step at 2 3.
  destruct (findIndex (fun s => step_id s =? stepId) l) as [i|] eqn:Hi.
  2:{ unfold complete_step. by rewrite Hi. }
  set (l1 := alter (set_status completed) i l).
  assert (Hi1 : findIndex (fun s => step_id s =? stepId) l1 = Some i)
    by (subst l1; rewrite findIndex_alter by (intros ?; reflexivity); exact Hi).
  assert (Hl1 : alter (set_status completed) i l1 = l1) by apply set_status_twice.
  destruct (findIndex (fun s => step_id s =? stepId + 1) l1) as [j|] eqn:Hj.
  2:{ unfold complete_step. by rewrite Hi1, Hl1, Hj. }
  destruct (findIndex_Some _ _ _ Hj) as (x & Hx & Hidx). rewrite Hx.
  destruct (findIndex_Some _ _ _ Hi1) as (y & Hy & Hidy).
  assert (Hij : i <> j).
  { intros ->. rewrite Hx in Hy. injection Hy as ->. lia. }
  destruct (decide (step_status x = pending)) as [Hpend|Hnot].
  - set (l2 := alter (set_status in_progress) j l1).
    assert (Hi2 : findIndex (fun s => step_id s =? stepId) l2 = Some i)
      by (subst l2; rewrite findIndex_alter by (intros ?; reflexivity); exact Hi1).
    assert (Hj2 : findIndex (fun s => step_id s =? stepId + 1) l2 = Some j)
      by (subst l2; rewrite findIndex_alter by (intros ?; reflexivity); exact Hj).
    assert (Hl2 : alter (set_status completed) i l2 = l2).
    { subst l2. by rewrite list_alter_alter_ne, Hl1. }
    unfold complete_step. rewrite Hi2, Hl2, Hj2.
    subst l2. rewrite list_lookup_alter_eq, Hx. cbn [fmap option_fmap option_map].
    by rewrite decide_False.
  - unfold complete_step. rewrite Hi1, Hl1, Hj, Hx. by rewrite decide_False.
Qed.

Lemma advanced_refl s : advanced s s.
Proof. by repeat split. Qed.

Lemma advanced_trans s1 s2 s3 : advanced s1 s2 -> advanced s2 s3 -> advanced s1 s3.
Proof.
  intros (? & ? & ? & ? & ?) (? & ? & ? & ? & ?).
  repeat split; try congruence. lia.
Qed.

Lemma alter_advanced (g : Step -> Step) i (l : list Step) :
  (forall x, l !! i = Some x -> advanced x (g x)) ->
  forall k s, l !! k = Some s -> exists s', alter g i l !! k = Some s' /\ advanced s s'.
Proof.
  intros Hg k s Hk. destruct (decide (i = k)) as [->|Hne].
  - exists (g s). rewrite list_lookup_alter_eq, Hk. split; [done|]. by apply Hg.
  - exists s. rewrite list_lookup_alter_ne by done. split; [done|apply advanced_refl].
Qed.




Lemma length_addLog msg prev : (length (addLog msg prev) <= 200)%nat.
Proof. unfold addLog. rewrite length_take. lia. Qed.

(** X23.  Whatever message arrives and however the camera and the
    submission fare, the handler keeps the page's log within 200 lines,
    submits at most one body, and touches the steps only for a
    [mark_step_complete] message. *)
Theorem handleData_bounded
    (parsed : Outcome IncomingMessage) (shot : Outcome (option string))
    (put : Outcome unit) (c : Client) :
  (length (logs c) <= 200)%nat ->
  let out := handleData parsed shot put c in
  (length (logs out.1) <= 200)%nat
  /\ (length out.2 <= 1)%nat
  /\ ((forall stepId requestId, parsed <> Return (MsgMarkStepComplete stepId requestId)) ->
      steps out.1 = steps c).
Proof.
  intros Hlen out. subst out. unfold handleData, markStepComplete.
  destruct parsed as [[question requestId|stepId requestId|]|msg];
    repeat (case_match; cbn [fst snd logs steps length]);
    repeat split; try apply length_addLog; try lia; try done.
  all: try (intros Hno; by destruct (Hno stepId requestId)).
  all: cbn [snd length]; lia.
Qed.

Lemma handleData_bounded_witness :
  let out := handleData (Return (MsgCaptureScreenshot (JStr "What is this?") (JStr "req_a_1")))
               (Return None) (Return tt) {| steps := []; logs := [] |} in
  (length (logs out.1) <= 200)%nat.
Proof.
  intros out.
  refine (proj1 (handleData_bounded _ (Return None) (Return tt) {| steps := []; logs := [] |} _)).
  cbn. lia.
Defined.




